(** * svc-common-go: the multiplexed gRPC + HTTP server and its HTTP service

    A shallow embedding of the packages [pkg/http] and [pkg/server] (with
    the parts of [pkg/grpc], [pkg/route] and [pkg/service] they use), and
    the properties of the lifecycle coordinator checked against it;
    then [service.New], the middleware of [pkg/firebase] and the routes
    and the authorization handler of [pkg/firebase_service], with the
    functions of Go's [strings] they rest on.

    Conventions of the embedding.
    - A Go pointer that the code compares with [nil] is an [option]; a
      pointer the code only dereferences is the value itself. Where the
      code uses a pointer of the first kind without a test (the calls on
      the logger of the service), the nil case is not followed.
    - A Go pair [(v, err)] is a Rocq pair of options.
    - Calls on the logger append to a log; the format string and its
      arguments are kept apart, nothing is rendered.
    - The process environment is a finite map from names to values. *)

From stdpp Require Import base option list strings gmap.
From Stdlib Require Import Ascii Lia.

Local Open Scope string_scope.
Local Open Scope list_scope.

(** ** Errors *)

(** The error values that occur: the sentinels of [net], [cmux] and
    [context], [fmt.Errorf] without and with a wrapped error ([%w]). *)
Inductive error : Type :=
| ErrNetClosed                          (* net.ErrClosed: use of closed network connection *)
| ErrMuxClosed                          (* cmux: the multiplexer or one of its listeners was closed *)
| Canceled                              (* context.Canceled *)
| DeadlineExceeded                      (* context.DeadlineExceeded *)
| Errorf (msg : string)
| Wrapf (msg : string) (inner : error).

#[global] Instance error_eq_dec : EqDecision error.
Proof. solve_decision. Defined.


(** ** Logging *)

Inductive Level : Type := LInfo | LWarn | LError.

Inductive LogArg : Type :=
| AStr (s : string)
| AErr (e : option error).

Record LogEntry : Type := mkLog {
  level : Level;
  format : string;
  args : list LogArg
}.

#[global] Instance Level_eq_dec : EqDecision Level.
Proof. solve_decision. Defined.
#[global] Instance LogArg_eq_dec : EqDecision LogArg.
Proof. solve_decision. Defined.
#[global] Instance LogEntry_eq_dec : EqDecision LogEntry.
Proof. solve_decision. Defined.

(** ** The environment of the process *)

Definition Env : Type := gmap string string.

(** [os.Getenv]: the value of the variable, empty when it is unset. *)
Definition Getenv (env : Env) (key : string) : string :=
  default EmptyString (env !! key).

Definition Setenv (key value : string) (env : Env) : Env := <[key := value]> env.
Definition Unsetenv (key : string) (env : Env) : Env := delete key env.

(** ** pkg/route and pkg/service *)

(** A [gin.HandlerFunc] is opaque to this library: it is carried from the
    handler table to the router and never called here. It is identified
    by a name. *)
Definition HandlerFunc : Type := string.

(** [route.Handler]. *)
Record Handler : Type := mkHandler {
  Method : string;
  Path : string;
  Handlers : list HandlerFunc
}.

(** [service.Service], the fields the two packages read. The logger is
    the log of the embedding. *)
Record Service : Type := mkService {
  Port : string;
  HTTPHandlers : list Handler
}.

(** ** pkg/http *)

Module http.

Definition MethodGet : string := "GET".
Definition MethodPut : string := "PUT".
Definition MethodPost : string := "POST".
Definition MethodDelete : string := "DELETE".

(** One entry of the router's table: what [group.GET(path, handlers...)]
    and its siblings hand to the engine. The group prefix and the relative
    path are kept apart. Gin's own checks of a table (a path registered
    twice, conflicting wildcards) are not part of this library and are
    not modelled: registering appends. *)
Record RouteInfo : Type := mkRoute {
  rtMethod : string;
  rtGroup : string;
  rtPath : string;
  rtHandlers : list HandlerFunc
}.

(** [gin.Engine]: the middleware installed with [Use], the routes. *)
Record Engine : Type := mkEngine {
  middleware : list string;
  routes : list RouteInfo
}.

Definition gin_New : Engine := mkEngine [] [].

Definition Use (mw : string) (e : Engine) : Engine :=
  mkEngine (middleware e ++ [mw]) (routes e).

Definition handle (method group : string) (h : Handler) (e : Engine) : Engine :=
  mkEngine (middleware e) (routes e ++ [mkRoute method group (Path h) (Handlers h)]).

(** [http.Server{Handler: engine}]. *)
Record Server : Type := mkServer { srvHandler : Engine }.

Record HTTPService : Type := mkHTTPService {
  Engine_ : Engine;
  Server_ : Server;
  Service_ : Service
}.

(** The body of the loop of [New]: the [switch] on [route.Method]. *)
Definition register (group : string) (st : Engine * list LogEntry) (route : Handler)
  : Engine * list LogEntry :=
  let '(engine, log) := st in
  if decide (Method route = MethodGet) then (handle "GET" group route engine, log)
  else if decide (Method route = MethodPut) then (handle "PUT" group route engine, log)
  else if decide (Method route = MethodPost) then (handle "POST" group route engine, log)
  else if decide (Method route = MethodDelete) then (handle "DELETE" group route engine, log)
  else (engine, log ++ [mkLog LWarn "unrecognized HTTP method for route %s" [AStr (Path route)]]).

(** [http.New(svc, version)]: the pair it returns and what it logged. *)
Definition New (svc : option Service) (version : string)
  : (option HTTPService * option error) * list LogEntry :=
  match svc with
  | None => ((None, Some (Errorf "service cannot be nil")), [])
  | Some svc =>
      let engine := gin_New in
      let engine := Use "GinContextToContextMiddleware" engine in
      let engine := Use "Recovery" engine in
      let group := "/api/" +:+ version in
      let '(engine, log) := foldl (register group) (engine, []) (HTTPHandlers svc) in
      let server := mkServer engine in
      ((Some (mkHTTPService engine server svc), None), log)
  end.

(** The older [New] of the same package: [svc] is dereferenced without a
    test, the switch has no default, so an unknown method is skipped
    silently, and the error is always nil. *)
Definition register_old (group : string) (engine : Engine) (route : Handler) : Engine :=
  if decide (Method route = "GET") then handle "GET" group route engine
  else if decide (Method route = "PUT") then handle "PUT" group route engine
  else if decide (Method route = "POST") then handle "POST" group route engine
  else if decide (Method route = "DELETE") then handle "DELETE" group route engine
  else engine.

Definition New_old (svc : Service) (version : string)
  : option HTTPService * option error :=
  let engine := gin_New in
  let engine := Use "GinContextToContextMiddleware" engine in
  let engine := Use "Recovery" engine in
  let group := "/api/" +:+ version in
  let engine := foldl (register_old group) engine (HTTPHandlers svc) in
  let server := mkServer engine in
  (Some (mkHTTPService engine server svc), None).

(** [formatAddr]: every [[::]] of the address becomes [http://localhost]
    (the matches of the regular expression, leftmost first, not
    overlapping). *)
Fixpoint formatAddr (addr : string) : string :=
  match addr with
  | String "["%char (String ":"%char (String ":"%char (String "]"%char rest))) =>
      "http://localhost" +:+ formatAddr rest
  | String c rest => String c (formatAddr rest)
  | EmptyString => EmptyString
  end.

End http.

(** ** pkg/grpc *)

Module grpc.

(** [GRPCService]: of the wrapped [grpc.Server] the model keeps whether it
    was told to stop. *)
Record GRPCService : Type := mkGRPCService {
  stopped : bool;
  Service_ : option Service
}.

(** [New(svc, opts...)]: reflection is registered, and logged, when [svc]
    (and its logger) is not nil. *)
Definition New (svc : option Service) : GRPCService * list LogEntry :=
  (mkGRPCService false svc,
   match svc with
   | Some _ => [mkLog LInfo "gRPC reflection enabled" []]
   | None => []
   end).

(** [GracefulStop()]: one log line, then the stop of the wrapped server. *)
Definition GracefulStop (g : GRPCService) : GRPCService * list LogEntry :=
  (mkGRPCService true (Service_ g), [mkLog LInfo "Stopping gRPC server..." []]).

End grpc.

(** ** golang.org/x/sync/errgroup *)

(** The concurrent units that [Run] hands to the group. *)
Inductive UnitId : Type := UGrpc | UHttp | UCmux.

#[global] Instance UnitId_eq_dec : EqDecision UnitId.
Proof. solve_decision. Defined.

Module errgroup.

(** A [Group] made by [WithContext]: the wait group is the list of the
    units started with [Go] that have not returned, [err] is the error
    kept under [errOnce]. [errOnce.Do] runs only with a non-nil error, so
    it has run exactly when [err] is set. *)
Record Group : Type := mkGroup {
  running : list UnitId;
  err : option error
}.

Definition WithContext : Group := mkGroup [] None.

(** [new(errgroup.Group)]: the same group with no context to cancel. *)
Definition zero : Group := mkGroup [] None.

(** [g.Go(f)]: one more unit to wait for. *)
Definition Go (u : UnitId) (g : Group) : Group :=
  mkGroup (running g ++ [u]) (err g).

Fixpoint remove1 (u : UnitId) (l : list UnitId) : list UnitId :=
  match l with
  | [] => []
  | v :: l' => if decide (u = v) then l' else v :: remove1 u l'
  end.

(** What the goroutine of [Go] does when its function returns [r]: a
    non-nil error is kept if it is the first, and then the context of the
    group is cancelled (the boolean); the unit leaves the wait group. *)
Definition done (u : UnitId) (r : option error) (g : Group) : Group * bool :=
  match r, err g with
  | Some e, None => (mkGroup (remove1 u (running g)) (Some e), true)
  | _, _ => (mkGroup (remove1 u (running g)) (err g), false)
  end.

(** [g.Wait()]: blocked ([None]) while a unit is running, then the kept
    error. *)
Definition Wait (g : Group) : option (option error) :=
  match running g with
  | [] => Some (err g)
  | _ :: _ => None
  end.

End errgroup.

(** ** pkg/server *)

Module server.

(** The matchers [Run] gives to cmux. *)
Inductive Matcher : Type :=
| HTTP2MatchHeaderFieldSendSettings (name value : string)
| HTTP1Fast.

#[global] Instance Matcher_eq_dec : EqDecision Matcher.
Proof. solve_decision. Defined.

(** A rule of the multiplexer: [m.Match(matchers...)] and the unit that
    serves the listener it returns. *)
Definition MatchRule : Type := (list Matcher * UnitId)%type.

(** [net.Listener]: its address and whether it was closed. [Close] on a
    closed listener changes nothing and reports the closed condition. *)
Record Listener : Type := mkListener {
  Addr : string;
  closed : bool
}.

Definition Close (l : Listener) : Listener * option error :=
  if closed l then (l, Some ErrNetClosed) else (mkListener (Addr l) true, None).

(** The only [context.CancelFunc] a [Server] holds: the one [Run] gets
    from [context.WithCancel]. *)
Inductive CancelFunc : Type := CancelRun.

Record Server : Type := mkServer {
  GRPCServer : grpc.GRPCService;
  Listener_ : Listener;
  Service_ : option Service;
  Version : string;
  cancel : option CancelFunc
}.

(** [New(svc, version, creds...)]; [listen] is what [net.Listen] gives. *)
Definition New (svc : option Service) (version : string) (listen : Listener + error)
  : (option Server * option error) * list LogEntry :=
  match svc with
  | None => ((None, Some (Errorf "service cannot be nil")), [])
  | Some _ =>
      match listen with
      | inr e => ((None, Some (Wrapf "failed to create listener" e)), [])
      | inl listener =>
          let '(g, log) := grpc.New svc in
          ((Some (mkServer g listener svc version None), None), log)
      end
  end.

(** The contexts of one [Run]: the caller's, the one derived from it by
    [context.WithCancel] (cancelled by [s.cancel]), and the one derived
    from that by [errgroup.WithContext]. Each holds its [Err()], nil while
    it is not done. A context that is done makes its descendants done with
    the same error. *)
Record Contexts : Type := mkContexts {
  caller : option error;
  run : option error;
  grp : option error
}.

Definition or_else (a b : option error) : option error :=
  match a with
  | Some _ => a
  | None => b
  end.

Definition cancel_caller (e : error) (c : Contexts) : Contexts :=
  mkContexts (or_else (caller c) (Some e)) (or_else (run c) (Some e)) (or_else (grp c) (Some e)).

Definition cancel_run (c : Contexts) : Contexts :=
  mkContexts (caller c) (or_else (run c) (Some Canceled)) (or_else (grp c) (Some Canceled)).

Definition cancel_grp (c : Contexts) : Contexts :=
  mkContexts (caller c) (run c) (or_else (grp c) (Some Canceled)).

(** The two derivations at the head of [Run]. *)
Definition derive (c : Contexts) : Contexts :=
  mkContexts (caller c) (caller c) (caller c).

(** What the server does to the outside, in order. *)
Inductive Effect : Type :=
| FxLog (entry : LogEntry)
| FxCancel                             (* s.cancel() *)
| FxGracefulStop                       (* s.GRPCServer.GracefulStop() *)
| FxClose (r : option error).          (* s.Listener.Close() and what it returned *)

#[global] Instance Effect_eq_dec : EqDecision Effect.
Proof. solve_decision. Defined.

Inductive Phase : Type :=
| Created
| Running
| Returned (r : option error).

Inductive Watcher : Type := Idle | Armed | Fired.

(** The state of one server and of the units around it.
    - [phase]: [Run] not called, [Run] blocked in [g.Wait()], [Run]
      returned [r];
    - [watcher]: the goroutine of [Run] that waits for [ctx.Done()];
    - [pending]: the goroutines of the [Shutdown] calls that returned on
      their deadline and have not run yet. *)
Record World : Type := mkWorld {
  srv : Server;
  ctxs : Contexts;
  phase : Phase;
  group : errgroup.Group;
  mux : list MatchRule;
  watcher : Watcher;
  pending : nat;
  trace : list Effect
}.

Definition set_srv (s : Server) (w : World) : World :=
  mkWorld s (ctxs w) (phase w) (group w) (mux w) (watcher w) (pending w) (trace w).
Definition set_ctxs (c : Contexts) (w : World) : World :=
  mkWorld (srv w) c (phase w) (group w) (mux w) (watcher w) (pending w) (trace w).
Definition set_phase (p : Phase) (w : World) : World :=
  mkWorld (srv w) (ctxs w) p (group w) (mux w) (watcher w) (pending w) (trace w).
Definition set_group (g : errgroup.Group) (w : World) : World :=
  mkWorld (srv w) (ctxs w) (phase w) g (mux w) (watcher w) (pending w) (trace w).
Definition set_mux (m : list MatchRule) (w : World) : World :=
  mkWorld (srv w) (ctxs w) (phase w) (group w) m (watcher w) (pending w) (trace w).
Definition set_watcher (x : Watcher) (w : World) : World :=
  mkWorld (srv w) (ctxs w) (phase w) (group w) (mux w) x (pending w) (trace w).
Definition set_pending (n : nat) (w : World) : World :=
  mkWorld (srv w) (ctxs w) (phase w) (group w) (mux w) (watcher w) n (trace w).
Definition emit (fx : list Effect) (w : World) : World :=
  mkWorld (srv w) (ctxs w) (phase w) (group w) (mux w) (watcher w) (pending w) (trace w ++ fx).

Definition logf (lv : Level) (fmt : string) (a : list LogArg) (w : World) : World :=
  emit [FxLog (mkLog lv fmt a)] w.

Definition set_cancel (c : option CancelFunc) (s : Server) : Server :=
  mkServer (GRPCServer s) (Listener_ s) (Service_ s) (Version s) c.
Definition set_Listener (l : Listener) (s : Server) : Server :=
  mkServer (GRPCServer s) l (Service_ s) (Version s) (cancel s).
Definition set_GRPCServer (g : grpc.GRPCService) (s : Server) : Server :=
  mkServer g (Listener_ s) (Service_ s) (Version s) (cancel s).

(** A server on which nothing has been called yet. *)
Definition fresh (s : Server) : World :=
  mkWorld s (mkContexts None None None) Created errgroup.WithContext [] Idle 0 [].

(** [_ = s.Listener.Close()]: the listener is closed, the result is
    dropped by the caller; the trace keeps it. *)
Definition close_listener (w : World) : World :=
  let '(l, r) := Close (Listener_ (srv w)) in
  emit [FxClose r] (set_srv (set_Listener l (srv w)) w).

(** [g.Go(f)] on the group of the world. *)
Definition spawn (u : UnitId) (w : World) : World :=
  set_group (errgroup.Go u (group w)) w.

(** [m.Match(...)] and [m.MatchWithWriters(...)]: one more rule. *)
Definition add_rule (r : MatchRule) (w : World) : World :=
  set_mux (mux w ++ [r]) w.

(** [Run(ctx)] up to its [g.Wait()]: the contexts, the multiplexer, the
    group, the mode read from the environment, the watcher, the units.
    When the HTTP service cannot be made, [Run] returns there. *)
Definition Run_start (env : Env) (w : World) : World :=
  let w := set_ctxs (derive (ctxs w)) w in
  let w := set_srv (set_cancel (Some CancelRun) (srv w)) w in
  let w := set_mux [] w in
  let w := set_group errgroup.WithContext w in
  let protocol := Getenv env "SERVICE_PROTOCOL" in
  let w := set_watcher Armed w in
  let w :=
    if decide (protocol <> "http") then
      let w := add_rule
        ([HTTP2MatchHeaderFieldSendSettings "content-type" "application/grpc";
          HTTP2MatchHeaderFieldSendSettings "content-type" "application/grpc+proto"],
         UGrpc) w in
      spawn UGrpc w
    else w in
  if decide (protocol <> "grpc") then
    let w := add_rule ([HTTP1Fast], UHttp) w in
    match http.New (Service_ (srv w)) (Version (srv w)) with
    | ((_, Some err), log) =>
        set_phase (Returned (Some (Wrapf "failed to initialize HTTP service" err)))
          (emit (map FxLog log) w)
    | ((_, None), log) =>
        let w := spawn UHttp (emit (map FxLog log) w) in
        let w := spawn UCmux w in
        set_phase Running w
    end
  else
    let w := spawn UCmux w in
    set_phase Running w.

(** The three functions [Run] gives to [g.Go], from the moment the
    wrapped server returns [r] back to the group. Each unit logs one line
    before it serves (inside [Serve] and [ListenAndServe] a second one)
    and one after; the lines of one unit are kept together here. *)
Definition unit_log (u : UnitId) (r : option error) (w : World) : list Effect :=
  let addr := Addr (Listener_ (srv w)) in
  match u with
  | UGrpc =>
      [FxLog (mkLog LInfo "gRPC service available on %s" [AStr addr]);
       FxLog (mkLog LInfo "gRPC server listening on %s" [AStr addr]);
       FxLog (mkLog LWarn "gRPC server stopped: %v" [AErr r])]
  | UHttp =>
      [FxLog (mkLog LInfo "HTTP service available on %s" [AStr addr]);
       FxLog (mkLog LInfo "HTTP server listening on %s" [AStr (http.formatAddr addr)]);
       FxLog (mkLog LWarn "HTTP server stopped: %v" [AErr r])]
  | UCmux =>
      [FxLog (mkLog LInfo "cmux serving connections" []);
       FxLog (mkLog LWarn "cmux stopped: %v" [AErr r])]
  end.

Definition unit_return (u : UnitId) (r : option error) (w : World) : option World :=
  if decide (u ∈ errgroup.running (group w)) then
    let w := emit (unit_log u r w) w in
    let '(g, first) := errgroup.done u r (group w) in
    let w := set_group g w in
    Some (if first then set_ctxs (cancel_grp (ctxs w)) w else w)
  else None.

(** The tail of [Run]: [g.Wait()] (which cancels the context of the group
    when it returns), the test that guards the error line, the return.
    [ctx] is the context of the group, the one [errgroup.WithContext]
    returned. *)
Definition Run_wait (w : World) : option World :=
  match phase w with
  | Running =>
      match errgroup.Wait (group w) with
      | Some err =>
          let w := set_ctxs (cancel_grp (ctxs w)) w in
          let w :=
            match err, grp (ctxs w) with
            | Some _, None => logf LError "server run terminated: %v" [AErr err] w
            | _, _ => w
            end in
          Some (set_phase (Returned err) w)
      | None => None
      end
  | _ => None
  end.

(** The goroutine at the head of [Run]: once the context is done, one log
    line and [Close] on the listener. *)
Definition watch (w : World) : option World :=
  match watcher w, grp (ctxs w) with
  | Armed, Some _ =>
      Some (set_watcher Fired
              (close_listener (logf LWarn "context canceled, closing listener" [] w)))
  | _, _ => None
  end.

(** The goroutine of [Shutdown]: the graceful stop of the gRPC server,
    then [Close] on the listener ([close(done)] is the return). *)
Definition Shutdown_bg (w : World) : World :=
  let '(g, log) := grpc.GracefulStop (GRPCServer (srv w)) in
  let w := set_srv (set_GRPCServer g (srv w)) w in
  let w := emit (map FxLog log ++ [FxGracefulStop]) w in
  close_listener w.

(** The [select] of [Shutdown]: which of its two channels is taken. *)
Inductive Select : Type :=
| DoneFirst                 (* <-done: the goroutine has finished *)
| CtxFirst (e : error).     (* <-ctx.Done(), and ctx.Err() is e *)

(** [Shutdown(ctx)]. When the context wins the [select], the goroutine is
    left behind, to run later. *)
Definition Shutdown (sel : Select) (w : World) : World * option error :=
  let w :=
    match cancel (srv w) with
    | Some CancelRun => emit [FxCancel] (set_ctxs (cancel_run (ctxs w)) w)
    | None => w
    end in
  match sel with
  | DoneFirst =>
      (logf LInfo "server shutdown complete" [] (Shutdown_bg w), None)
  | CtxFirst e =>
      (set_pending (S (pending w)) (logf LWarn "server shutdown timed out" [] w), Some e)
  end.

(** *** Executions *)

(** What can happen to a server, one event at a time: the calls of its
    two methods, the cancellation of the caller's context, the return of
    the server a unit wraps, and the moments the blocked goroutines go
    on. *)
Inductive Event : Type :=
| EvRun
| EvCtxDone (e : error)
| EvUnitReturn (u : UnitId) (r : option error)
| EvWait
| EvWatcher
| EvShutdown (sel : Select)
| EvShutdownBg.

(** One event; [None] when it cannot happen in that state. [Run] is
    called once on a server. *)
Definition step (env : Env) (ev : Event) (w : World) : option World :=
  match ev with
  | EvRun =>
      match phase w with
      | Created => Some (Run_start env w)
      | _ => None
      end
  | EvCtxDone e => Some (set_ctxs (cancel_caller e (ctxs w)) w)
  | EvUnitReturn u r => unit_return u r w
  | EvWait => Run_wait w
  | EvWatcher => watch w
  | EvShutdown sel => Some (fst (Shutdown sel w))
  | EvShutdownBg =>
      match pending w with
      | S n => Some (set_pending n (Shutdown_bg w))
      | O => None
      end
  end.

Fixpoint exec (env : Env) (evs : list Event) (w : World) : option World :=
  match evs with
  | [] => Some w
  | ev :: evs' =>
      match step env ev w with
      | Some w' => exec env evs' w'
      | None => None
      end
  end.

(** The returns of the units in an execution, in order. *)
Fixpoint unit_returns (evs : list Event) : list (UnitId * option error) :=
  match evs with
  | [] => []
  | EvUnitReturn u r :: evs' => (u, r) :: unit_returns evs'
  | _ :: evs' => unit_returns evs'
  end.

(** The first non-nil error of a list of returns. *)
Fixpoint first_error (rs : list (UnitId * option error)) : option error :=
  match rs with
  | [] => None
  | (_, Some e) :: _ => Some e
  | (_, None) :: rs' => first_error rs'
  end.



(** *** The older [Run] *)

(** The older [Server] has no [cancel]; its [Run()] takes no context,
    looks the mode up twice ([env] and [env'] are the environment at the
    first and at the second lookup), and ends the process with
    [log.Fatal] when the HTTP service cannot be made ([None]). The result
    is the multiplexer and the group at the moment of [g.Wait()]. *)
Definition Run_old (env env' : Env) (svc : Service) (version : string)
  : option (list MatchRule * errgroup.Group) :=
  let m : list MatchRule := [] in
  let g := errgroup.zero in
  let '(m, g) :=
    if decide (Getenv env "SERVICE_PROTOCOL" <> "http") then
      (m ++ [([HTTP2MatchHeaderFieldSendSettings "content-type" "application/grpc";
               HTTP2MatchHeaderFieldSendSettings "content-type" "application/grpc+proto"],
              UGrpc)],
       errgroup.Go UGrpc g)
    else (m, g) in
  if decide (Getenv env' "SERVICE_PROTOCOL" <> "grpc") then
    let m := m ++ [([HTTP1Fast], UHttp)] in
    match http.New_old svc version with
    | (_, Some _) => None
    | (_, None) => Some (m, errgroup.Go UCmux (errgroup.Go UHttp g))
    end
  else Some (m, g).

End server.

(** ** The multiplexer's reader *)

Module cmux.

(** Modelled from the spec: the Byte-Pattern Matcher and the Replay
    Buffer of the multiplexer (its sections 3, 4.1 and 4.2). The
    repository reaches them through [cmux.New], [m.Match] and [m.Serve];
    their code is not under src/.

    A [RawConnection] is an accepted connection plus the lookahead
    buffer: [socket] holds the bytes the client sent that have not been
    read from the socket, [lookahead] the bytes read for classification
    and not yet delivered downstream. *)
Record RawConnection : Type := mkConn {
  socket : list Byte.byte;
  lookahead : list Byte.byte
}.

(** Modelled from the spec: a connection as the Accept Loop gets it from
    the root listener, nothing read yet. *)
Definition accept (stream : list Byte.byte) : RawConnection := mkConn stream [].

(** Modelled from the spec: the Matcher reads [n] more bytes for
    classification: they are captured in the lookahead buffer, never
    discarded. *)
Definition sniff (n : nat) (c : RawConnection) : RawConnection :=
  mkConn (drop n (socket c)) (lookahead c ++ take n (socket c)).

(** Modelled from the spec: a read of [n] bytes by the eventual consumer:
    the captured bytes are prefixed back, and a read that spans the
    lookahead boundary returns bytes of the replay buffer followed by
    fresh bytes of the socket. *)
Definition read (n : nat) (c : RawConnection) : list Byte.byte * RawConnection :=
  let replayed := take n (lookahead c) in
  let fresh := n - length replayed in
  (replayed ++ take fresh (socket c),
   mkConn (drop fresh (socket c)) (drop n (lookahead c))).

(** Modelled from the spec: a rule is a predicate over the leading bytes
    and a protocol tag; the rules are tried in declaration order on the
    buffered bytes and the first satisfied rule wins. *)
Definition MatchRule : Type := ((list Byte.byte -> bool) * string)%type.

(** Modelled from the spec: the Matcher proper, a pure function of the
    buffered bytes; [None] is the "no match" sentinel. *)
Fixpoint classify (rules : list MatchRule) (leading : list Byte.byte) : option string :=
  match rules with
  | [] => None
  | (p, tag) :: rules' => if p leading then Some tag else classify rules' leading
  end.

(** Modelled from the spec: the lookahead of the Matcher, taken in
    pieces of the sizes [ks]. *)
Definition sniffs (ks : list nat) (c : RawConnection) : RawConnection :=
  foldl (fun c k => sniff k c) c ks.

(** Modelled from the spec: the reads of the consumer, of the sizes
    [ns]: what it has observed, in order, and the connection
    afterwards. *)
Fixpoint reads (ns : list nat) (c : RawConnection) : list Byte.byte * RawConnection :=
  match ns with
  | [] => ([], c)
  | n :: ns' =>
      let '(b, c') := read n c in
      let '(bs, c'') := reads ns' c' in
      (b ++ bs, c'')
  end.

(** Modelled from the spec: Matcher, then Replay Buffer. The connection
    is accepted, classified on a lookahead taken in pieces [ks], and,
    when a rule matches, read by the consumer of that tag in pieces [ns].
    The result is the tag and the bytes that consumer observed. *)
Definition pipeline (rules : list MatchRule) (ks ns : list nat) (stream : list Byte.byte)
  : option (string * list Byte.byte) :=
  let c := sniffs ks (accept stream) in
  match classify rules (lookahead c) with
  | Some tag => Some (tag, fst (reads ns c))
  | None => None
  end.

End cmux.

(** ** The functions of Go's [strings] the other packages use *)

Module strings.

(** [strings.HasPrefix(s, prefix)]. *)
Fixpoint HasPrefix (s prefix : string) : bool :=
  match prefix, s with
  | EmptyString, _ => true
  | String p prefix', String c s' => bool_decide (c = p) && HasPrefix s' prefix'
  | String _ _, EmptyString => false
  end.

(** The loop of [strings.Split] and [strings.SplitN] for a separator that
    is not empty: the leftmost occurrences of [sep], not overlapping.
    [skip] counts the bytes of a separator still to pass, [cur] is the
    piece being read, [n] the number of cuts still allowed ([None]: no
    bound). *)
Fixpoint genSplit (sep : string) (n : option nat) (skip : nat) (cur s : string)
  : list string :=
  match s with
  | EmptyString => [cur]
  | String c s' =>
      match skip with
      | S k => genSplit sep n k cur s'
      | O =>
          match n with
          | Some O => [cur +:+ s]
          | _ =>
              if HasPrefix s sep
              then cur :: genSplit sep (option_map Nat.pred n) (String.length sep - 1)
                            EmptyString s'
              else genSplit sep n 0 (cur +:+ String c EmptyString) s'
          end
      end
  end.

(** [strings.Split(s, sep)], [sep] not empty. *)
Definition Split (s sep : string) : list string := genSplit sep None 0 EmptyString s.

(** [strings.SplitN(s, sep, n)] for [n > 0], [sep] not empty: at most [n]
    pieces, the last one the unsplit rest. *)
Definition SplitN (s sep : string) (n : nat) : list string :=
  match n with
  | O => []
  | S m => genSplit sep (Some m) 0 EmptyString s
  end.

(** [strings.Join(elems, sep)]. *)
Fixpoint Join (elems : list string) (sep : string) : string :=
  match elems with
  | [] => EmptyString
  | [e] => e
  | e :: elems' => e +:+ sep +:+ Join elems' sep
  end.

Definition code (c : ascii) : nat := nat_of_ascii c.

(** [asciiSpace]: tab, line feed, vertical tab, form feed, carriage
    return, space. *)
Definition ascii_space (b : nat) : bool :=
  (b =? 9)%nat || (b =? 10)%nat || (b =? 11)%nat || (b =? 12)%nat || (b =? 13)%nat || (b =? 32)%nat.

(** The UTF-8 encodings of the code points of [unicode.IsSpace] above
    U+007F: U+0085 and U+00A0 on two bytes; U+1680, U+2000 to U+200A,
    U+2028, U+2029, U+202F, U+205F and U+3000 on three. *)
Definition space2 (b1 b2 : nat) : bool :=
  (b1 =? 194)%nat && ((b2 =? 133)%nat || (b2 =? 160)%nat).

Definition space3 (b1 b2 b3 : nat) : bool :=
  ((b1 =? 225)%nat && (b2 =? 154)%nat && (b3 =? 128)%nat) ||
  ((b1 =? 226)%nat && (b2 =? 128)%nat &&
   (((128 <=? b3)%nat && (b3 <=? 138)%nat) || (b3 =? 168)%nat || (b3 =? 169)%nat || (b3 =? 175)%nat)) ||
  ((b1 =? 226)%nat && (b2 =? 129)%nat && (b3 =? 159)%nat) ||
  ((b1 =? 227)%nat && (b2 =? 128)%nat && (b3 =? 128)%nat).

(** The width in bytes of the white space rune [s] starts with, 0 when it
    starts with none. *)
Definition space_width (s : string) : nat :=
  match s with
  | String c1 (String c2 (String c3 _)) =>
      if ascii_space (code c1) then 1
      else if space2 (code c1) (code c2) then 2
      else if space3 (code c1) (code c2) (code c3) then 3 else 0
  | String c1 (String c2 EmptyString) =>
      if ascii_space (code c1) then 1
      else if space2 (code c1) (code c2) then 2 else 0
  | String c1 EmptyString => if ascii_space (code c1) then 1 else 0
  | EmptyString => 0
  end.

(** The same for the rune [s] ends with, read on the reversed string. *)
Definition space_width_rev (r : string) : nat :=
  match r with
  | String c1 (String c2 (String c3 _)) =>
      if ascii_space (code c1) then 1
      else if space2 (code c2) (code c1) then 2
      else if space3 (code c3) (code c2) (code c1) then 3 else 0
  | String c1 (String c2 EmptyString) =>
      if ascii_space (code c1) then 1
      else if space2 (code c2) (code c1) then 2 else 0
  | String c1 EmptyString => if ascii_space (code c1) then 1 else 0
  | EmptyString => 0
  end.

(** Runes are dropped while [width] finds one; [skip] counts the bytes of
    the current rune still to drop. *)
Fixpoint trim_go (width : string -> nat) (skip : nat) (s : string) : string :=
  match s with
  | EmptyString => EmptyString
  | String _ s' =>
      match skip with
      | S k => trim_go width k s'
      | O =>
          match width s with
          | O => s
          | S k => trim_go width k s'
          end
      end
  end.

Fixpoint rev (s : string) : string :=
  match s with
  | EmptyString => EmptyString
  | String c s' => rev s' +:+ String c EmptyString
  end.

(** [strings.TrimSpace(s)]: the leading white space runes are cut, then
    the trailing ones. *)
Definition TrimSpace (s : string) : string :=
  rev (trim_go space_width_rev 0 (rev (trim_go space_width 0 s))).

Fixpoint is_ascii (s : string) : bool :=
  match s with
  | EmptyString => true
  | String c s' => (code c <? 128)%nat && is_ascii s'
  end.

Definition lower_byte (c : ascii) : ascii :=
  if ((65 <=? code c)%nat && (code c <=? 90)%nat) then ascii_of_nat (code c + 32) else c.

Fixpoint lower_ascii (s : string) : string :=
  match s with
  | EmptyString => EmptyString
  | String c s' => String (lower_byte c) (lower_ascii s')
  end.

(** [strings.ToLower(s)]. On a string of ASCII bytes the letters A to Z
    are mapped to a to z. A string with a byte above 0x7F goes through
    the case tables of [unicode], which are not part of this library:
    [unicode_lower] stands for that mapping. *)
Definition ToLower (unicode_lower : string -> string) (s : string) : string :=
  if is_ascii s then lower_ascii s else unicode_lower s.

End strings.

(** ** pkg/service: [New] and [HandleErr] *)

(** [err.Error()]: the text of an error. *)
Fixpoint Error (e : error) : string :=
  match e with
  | ErrNetClosed => "use of closed network connection"
  | ErrMuxClosed => "mux: listener closed"
  | Canceled => "context canceled"
  | DeadlineExceeded => "context deadline exceeded"
  | Errorf msg => msg
  | Wrapf msg inner => msg +:+ ": " +:+ Error inner
  end.

Module service.

Section New.

(** The handles of the libraries: [*sql.DB], [*grpc.ClientConn],
    [*postgres.Connection], [credentials.TransportCredentials]. *)
Context {DB ClientConn Connection Credentials : Type}.

Inductive TransportCredentials : Type :=
| Insecure                          (* insecure.NewCredentials() *)
| Given (c : Credentials).

Inductive DialOption : Type :=
| WithTransportCredentials (c : TransportCredentials).

(** [ServiceOption]: its credential is an interface value, nil or not. *)
Record ServiceOption : Type := mkServiceOption {
  GRPCCredential : option Credentials
}.

(** What [New] calls outside the package: [logs.New] (whether it gives a
    logger, and its error), [postgres.GetURIFromEnv], [HostString], and
    the two package variables [connectPostgres] and [dialGRPC], which the
    tests replace. The older [New] also reads the state of a connection. *)
Record Externals : Type := mkExternals {
  logs_New : string -> string -> bool -> bool * option error;
  GetURIFromEnv : Env -> Connection;
  HostString : Connection -> string;
  connectPostgres : Connection -> option DB * option error;
  dialGRPC : string -> list DialOption -> option ClientConn * option error;
  GetState : ClientConn -> string
}.

Variable ext : Externals.

(** The [Service] that [New] builds: the record of the HTTP and server
    packages (its port, no handlers yet) with the database and the
    connections. *)
Record Built : Type := mkBuilt {
  base : Service;
  DB_ : option DB;
  ServiceConnections : gmap string ClientConn
}.

(** How a call of [New] ends: [log.Fatalf] ends the process; a method is
    called on a nil logger or a nil connection, and what happens then is
    up to that package; or [New] returns its pair. *)
Inductive Outcome : Type :=
| Fatal (msg : string)
| NilReceiver
| Return (svc : option Built) (err : option error).

(** What a call of [New] has done when it ends: the lines of the service
    logger, the lines of the standard logger, the addresses dialled with
    their options, in order. *)
Record Done : Type := mkDone {
  outcome : Outcome;
  log : list LogEntry;
  printed : list LogEntry;
  dialled : list (string * list DialOption)
}.

(** The dial options of [New]: the insecure credentials when no option is
    given; otherwise the credentials of the options that have some. *)
Definition grpcOptions (serviceOpts : list ServiceOption) : list DialOption :=
  match serviceOpts with
  | [] => [WithTransportCredentials Insecure]
  | _ :: _ =>
      omap (fun o => option_map (fun c => WithTransportCredentials (Given c))
                       (GRPCCredential o))
           serviceOpts
  end.

(** One entry of SERVICE_DEPS in the newer [New]: trimmed, cut at its
    first [@], both sides trimmed; [None] where the loop says
    [continue]. *)
Definition parse_dep (dep : string) : option (string * string) :=
  let dep := strings.TrimSpace dep in
  if decide (dep = EmptyString) then None
  else
    match strings.SplitN dep "@" 2 with
    | [p0; p1] =>
        let name := strings.TrimSpace p0 in
        let addr := strings.TrimSpace p1 in
        if decide (name = EmptyString \/ addr = EmptyString) then None
        else Some (name, addr)
    | _ => None
    end.

(** The loop over the entries of SERVICE_DEPS in the newer [New]. *)
Fixpoint connect (opts : list DialOption) (deps : list string)
    (services : gmap string ClientConn) (lg : list LogEntry)
    (dl : list (string * list DialOption))
  : option error * gmap string ClientConn * list LogEntry * list (string * list DialOption) :=
  match deps with
  | [] => (None, services, lg, dl)
  | dep :: deps' =>
      match parse_dep dep with
      | None => connect opts deps' services lg dl
      | Some (name, addr) =>
          let dl := dl ++ [(addr, opts)] in
          match dialGRPC ext addr opts with
          | (_, Some err) =>
              (Some (Wrapf ("failed to dial " +:+ name) err), services, lg, dl)
          | (None, None) =>
              (Some (Errorf ("failed to dial " +:+ name +:+ ": got nil connection")),
               services, lg, dl)
          | (Some conn, None) =>
              connect opts deps' (<[name := conn]> services)
                (lg ++ [mkLog LInfo "Connected to %s service" [AStr name]]) dl
          end
      end
  end.

(** [PORT], or 4000 when it is not set or empty. *)
Definition port_of (env : Env) : string :=
  if decide (Getenv env "PORT" = EmptyString) then "4000" else Getenv env "PORT".

(** The newer [New(serviceOpts...)]. *)
Definition New (env : Env) (serviceOpts : list ServiceOption) : Done :=
  let port := port_of env in
  let '(logger, err) :=
    logs_New ext (Getenv env "SERVICE") (Getenv env "VERSION")
      (negb (bool_decide (Getenv env "IS_TERMINAL" = "true"))) in
  match err with
  | Some _ => mkDone (Fatal "unable to create service logger") [] [] []
  | None =>
      let connString := GetURIFromEnv ext env in
      match connectPostgres ext connString with
      | (_, Some err) =>
          let line := mkLog LError "failed to connect to database: %v" [AErr (Some err)] in
          mkDone (Return None (Some (Errorf ("failed to create db connection: " +:+ Error err))))
            (if logger then [line] else []) (if logger then [] else [line]) []
      | (db, None) =>
          if negb logger then mkDone NilReceiver [] [] []
          else
            let lg := [mkLog LInfo "Connected to database %s"
                         [AStr (HostString ext connString)]] in
            let opts := grpcOptions serviceOpts in
            let raw := Getenv env "SERVICE_DEPS" in
            let '(err, services, lg, dl) :=
              if decide (raw = EmptyString) then (None, ∅, lg, [])
              else connect opts (strings.Split raw ",") ∅ lg [] in
            match err with
            | Some e => mkDone (Return None (Some e)) lg [] dl
            | None =>
                mkDone (Return (Some (mkBuilt (mkService port []) db services)) None) lg [] dl
            end
      end
  end.

(** The loop of the older [New]: an entry is cut at every [@] and used
    when that gives two pieces; nothing is trimmed; the error of a dial
    is returned as it is; the state of the connection is logged. *)
Fixpoint connect_old (opts : list DialOption) (deps : list string)
    (services : gmap string ClientConn) (lg : list LogEntry)
    (dl : list (string * list DialOption))
  : option (option error) * gmap string ClientConn * list LogEntry
    * list (string * list DialOption) :=
  match deps with
  | [] => (Some None, services, lg, dl)
  | dep :: deps' =>
      match strings.Split dep "@" with
      | [name; addr] =>
          let dl := dl ++ [(addr, opts)] in
          match dialGRPC ext addr opts with
          | (_, Some err) => (Some (Some err), services, lg, dl)
          | (None, None) => (None, services, lg, dl)
          | (Some conn, None) =>
              connect_old opts deps' (<[name := conn]> services)
                (lg ++ [mkLog LInfo "Connected to %s service: %s"
                          [AStr name; AStr (GetState ext conn)]]) dl
          end
      | _ => connect_old opts deps' services lg dl
      end
  end.

(** The older [New(serviceOpts...)]. *)
Definition New_old (env : Env) (serviceOpts : list ServiceOption) : Done :=
  let port := port_of env in
  let '(logger, err) :=
    logs_New ext (Getenv env "SERVICE") (Getenv env "VERSION")
      (negb (bool_decide (Getenv env "IS_TERMINAL" = "true"))) in
  match err with
  | Some _ => mkDone (Fatal "unable to create service logger") [] [] []
  | None =>
      let connString := GetURIFromEnv ext env in
      match connectPostgres ext connString with
      | (_, Some err) =>
          mkDone (Return None (Some (Errorf ("failed to create db connection: " +:+ Error err))))
            [] [] []
      | (db, None) =>
          if negb logger then mkDone NilReceiver [] [] []
          else
            let lg := [mkLog LInfo ("Connected to database " +:+ HostString ext connString) []] in
            let opts := grpcOptions serviceOpts in
            let '(r, services, lg, dl) :=
              connect_old opts (strings.Split (Getenv env "SERVICE_DEPS") ",") ∅ lg [] in
            match r with
            | None => mkDone NilReceiver lg [] dl
            | Some (Some e) => mkDone (Return None (Some e)) lg [] dl
            | Some None =>
                mkDone (Return (Some (mkBuilt (mkService port []) db services)) None) lg [] dl
            end
      end
  end.

End New.

(** A response written with [c.JSON]: the status and the fields of the
    [gin.H], in the order of their keys. *)
Record Response : Type := mkResponse {
  status : nat;
  body : list (string * string)
}.

(** [HandleErr(c, err, message, code)] of [Service]: the message is logged
    as an error line, and the response carries the text of the error,
    with the message as details when there is one. *)
Definition HandleErr (err : error) (message : string) (code : nat)
  : list LogEntry * Response :=
  ([mkLog LError message []],
   if decide (message = EmptyString)
   then mkResponse code [("error", Error err)]
   else mkResponse code [("details", message); ("error", Error err)]).

End service.

(** ** What the statements below speak of *)

(** The methods [http.New] registers. *)
Definition recognized (m : string) : bool :=
  bool_decide (m ∈ ["GET"; "PUT"; "POST"; "DELETE"]).

(** The route [http.New] makes of a recognized handler, the warning it
    logs for another. *)
Definition route_of (version : string) (h : Handler) : http.RouteInfo :=
  http.mkRoute (Method h) ("/api/" +:+ version) (Path h) (Handlers h).

Definition warning_of (h : Handler) : LogEntry :=
  mkLog LWarn "unrecognized HTTP method for route %s" [AStr (Path h)].

(** The mode [Run] reads. *)
Definition protocol (env : Env) : string := Getenv env "SERVICE_PROTOCOL".

(** The Server Tasks among the units of a group: all but the serve unit
    of the multiplexer. *)
Definition tasks (g : errgroup.Group) : list UnitId :=
  List.filter (fun u => negb (bool_decide (u = UCmux))) (errgroup.running g).

(** How many times a unit occurs in a group. *)
Definition spawned_times (u : UnitId) (g : errgroup.Group) : nat :=
  length (List.filter (fun v => bool_decide (v = u)) (errgroup.running g)).

(** [Run] stops at the making of the HTTP service: the mode asks for it
    and the service of the server is nil. *)
Definition init_fails (env : Env) (w : server.World) : bool :=
  bool_decide (protocol env <> "grpc") &&
  bool_decide (server.Service_ (server.srv w) = None).

Definition init_error : error :=
  Wrapf "failed to initialize HTTP service" (Errorf "service cannot be nil").

(** Inputs for the examples: the service of the tests, with its one
    route, a server [server.New] makes of it, and a server whose service
    is nil. *)
Definition ping_service : Service :=
  mkService "0" [mkHandler "GET" "/ping" ["pong"]].

Definition ping_server : server.Server :=
  server.mkServer (grpc.mkGRPCService false (Some ping_service))
    (server.mkListener "[::]:4000" false) (Some ping_service) "v1" None.


Definition mode (p : string) : Env := {[ "SERVICE_PROTOCOL" := p ]}.

(** The variable is not set, as after [os.Unsetenv]. *)
Definition no_mode : Env := Unsetenv "SERVICE_PROTOCOL" (mode "http").











(** The bytes of a connection that no consumer has observed yet, in the
    order the client sent them. *)
Definition remaining (c : cmux.RawConnection) : list Byte.byte :=
  cmux.lookahead c ++ cmux.socket c.

(** What one event does to the phase of [Run] and to its group. *)
Inductive step_kind (env : Env) (w w' : server.World) : server.Event -> Prop :=
| sk_run :
    server.phase w = server.Created ->
    w' = server.Run_start env w ->
    step_kind env w w' server.EvRun
| sk_return u r :
    u ∈ errgroup.running (server.group w) ->
    server.phase w' = server.phase w ->
    server.group w' = fst (errgroup.done u r (server.group w)) ->
    step_kind env w w' (server.EvUnitReturn u r)
| sk_wait :
    server.phase w = server.Running ->
    errgroup.running (server.group w) = [] ->
    server.phase w' = server.Returned (errgroup.err (server.group w)) ->
    server.group w' = server.group w ->
    step_kind env w w' server.EvWait
| sk_other ev :
    ev <> server.EvRun ->
    (forall u r, ev <> server.EvUnitReturn u r) ->
    ev <> server.EvWait ->
    server.phase w' = server.phase w ->
    server.group w' = server.group w ->
    step_kind env w w' ev.

(** ** More of the code: what the further statements speak of *)

(** The byte [c] occurs in [s]. *)
Fixpoint has_char (c : ascii) (s : string) : bool :=
  match s with
  | EmptyString => false
  | String d s' => bool_decide (d = c) || has_char c s'
  end.

(** What holds of a server from the moment [Run] has started its units:
    when the group keeps an error, or [Run] has returned, the context of
    the group is done; the watcher exists; and when the watcher has woken
    up the listener is closed. *)
Definition started_inv (w : server.World) : Prop :=
  server.phase w <> server.Created /\
  (errgroup.err (server.group w) <> None -> is_Some (server.grp (server.ctxs w))) /\
  (forall r, server.phase w = server.Returned r -> is_Some (server.grp (server.ctxs w))) /\
  server.watcher w <> server.Idle /\
  (server.watcher w = server.Fired ->
   server.closed (server.Listener_ (server.srv w)) = true).

(** A byte of a name or an address in SERVICE_DEPS that needs no care:
    ASCII, not white space, not one of the two separators. *)
Definition plain_byte (c : ascii) : bool :=
  (strings.code c <? 128)%nat && negb (strings.ascii_space (strings.code c)) &&
  negb (bool_decide (c = "@"%char)) && negb (bool_decide (c = ","%char)).

Fixpoint all_plain (s : string) : bool :=
  match s with
  | EmptyString => true
  | String c s' => plain_byte c && all_plain s'
  end.

(** A name or an address made of such bytes, and not empty. *)
Definition plain (s : string) : bool :=
  negb (bool_decide (s = EmptyString)) && all_plain s.

(** A list of dependencies written the way SERVICE_DEPS wants it. *)
Definition encode_dep (d : string * string) : string := d.1 +:+ "@" +:+ d.2.

Definition encode_deps (deps : list (string * string)) : string :=
  strings.Join (map encode_dep deps) ",".

(** The first byte of [s] is an ASCII byte that is not white space. *)
Definition starts_solid (s : string) : bool :=
  match s with
  | String c _ => (strings.code c <? 128)%nat && negb (strings.ascii_space (strings.code c))
  | EmptyString => false
  end.

(** The entries of SERVICE_DEPS that the newer [New] uses, in order. *)
Definition parsed_deps (env : Env) : list (string * string) :=
  omap service.parse_dep (strings.Split (Getenv env "SERVICE_DEPS") ",").

Section Dial.

Context {DB ClientConn Connection Credentials : Type}.
Variable ext : @service.Externals DB ClientConn Connection Credentials.
Variable opts : list (@service.DialOption Credentials).

(** The dial of the address of an entry gives a connection and no
    error. *)
Definition dial_ok (d : string * string) : bool :=
  match service.dialGRPC ext d.2 opts with
  | (Some _, None) => true
  | _ => false
  end.

(** The error of the newer [New] for an entry whose dial did not. *)
Definition dial_error (d : string * string) : error :=
  match service.dialGRPC ext d.2 opts with
  | (_, Some err) => Wrapf ("failed to dial " +:+ d.1) err
  | _ => Errorf ("failed to dial " +:+ d.1 +:+ ": got nil connection")
  end.

(** The connection of an entry is kept under its name. *)
Definition keep (m : gmap string ClientConn) (d : string * string) : gmap string ClientConn :=
  match service.dialGRPC ext d.2 opts with
  | (Some conn, _) => <[d.1 := conn]> m
  | _ => m
  end.

Definition dial_call (d : string * string) : string * list (@service.DialOption Credentials) :=
  (d.2, opts).

Definition dial_line (d : string * string) : LogEntry :=
  mkLog LInfo "Connected to %s service" [AStr d.1].

End Dial.

(** The externals of the tests of [pkg/service]: a logger, a database
    that connects, and a dial that fails for the address [bad] only. *)
Definition test_externals : @service.Externals unit string string string :=
  service.mkExternals
    (fun _ _ _ => (true, None))
    (fun _ => "postgres://localhost:5432/testdb")
    (fun _ => "localhost:5432")
    (fun _ => (Some tt, None))
    (fun addr _ =>
       if decide (addr = "bad") then (None, Some (Errorf "mock grpc dial failed"))
       else (Some ("conn to " +:+ addr), None))
    (fun _ => "READY").

Definition deps_env (raw : string) : Env :=
  {[ "PORT" := "8080"; "SERVICE_DEPS" := raw ]}.


(** ** pkg/firebase *)

Module firebase.

Section Firebase.

(** [*auth.Token], [*fb.App], and the values of other types that a
    handler may keep in a [gin.Context]. *)
Context {Token App Other : Type}.

(** The case tables of [unicode], for [strings.ToLower]. *)
Variable unicode_lower : string -> string.

(** A value of type [any] among the keys of a [gin.Context]: a
    [*auth.Token], nil or not, or a value of another type. *)
Inductive Value : Type :=
| VToken (tok : option Token)
| VOther (v : Other).

(** [gin.Context], what this package reads and writes of it: the first
    value of the Authorization header of the request (empty when the
    header is absent) and the keys. *)
Record Context : Type := mkContext {
  Authorization : string;
  Keys : gmap string Value
}.

(** [c.GetHeader("Authorization")]. *)
Definition GetHeader (c : Context) : string := Authorization c.

(** [c.Set(key, value)] and [c.Get(key)]. *)
Definition Set_ (key : string) (value : Value) (c : Context) : Context :=
  mkContext (Authorization c) (<[key := value]> (Keys c)).

Definition Get (key : string) (c : Context) : option Value := Keys c !! key.

(** [AuthAPI]: its one method, [VerifyIDToken(ctx, token)]. *)
Definition AuthAPI : Type := string -> option Token * option error.

Record FirebaseConfig : Type := mkFirebaseConfig {
  CredentialsPath : string;
  ProjectID : string
}.

(** [FirebaseService]; [Auth] is an interface value, nil or not. *)
Record FirebaseService : Type := mkFirebaseService {
  Base : option Service;
  App_ : option App;
  Auth : option AuthAPI;
  Config : option FirebaseConfig
}.

(** [VerifyToken(ctx, token)]: the pair it returns and what it logged;
    [None] when the method of a nil [Auth] is called, which panics. *)
Definition VerifyToken (fs : FirebaseService) (token : string)
  : option ((option Token * option error) * list LogEntry) :=
  match Auth fs with
  | None => None
  | Some VerifyIDToken =>
      match VerifyIDToken token with
      | (_, Some err) =>
          Some ((None, Some (Wrapf "invalid Firebase token" err)),
                [mkLog LError "failed to verify Firebase token: %v" [AErr (Some err)]])
      | (tok, None) => Some ((tok, None), [])
      end
  end.

(** How the middleware ends: with [c.Next()], with
    [c.AbortWithStatusJSON(code, body)], or in a panic. *)
Inductive Ending : Type :=
| Next
| Abort (r : service.Response)
| Panic.

(** What a call of the middleware has done when it ends: the context,
    the lines logged, the tokens handed to [VerifyIDToken]. *)
Record Handled : Type := mkHandled {
  ending : Ending;
  ctx : Context;
  log : list LogEntry;
  verified : list string
}.

(** [gin.H{error: msg}] with [http.StatusUnauthorized]. *)
Definition unauthorized (msg : string) : service.Response :=
  service.mkResponse 401 [("error", msg)].

(** The handler that [FirebaseAuthMiddleware()] returns. *)
Definition FirebaseAuthMiddleware (fs : FirebaseService) (c : Context) : Handled :=
  let authHeader := GetHeader c in
  if decide (authHeader = EmptyString)
  then mkHandled (Abort (unauthorized "missing Authorization header")) c [] []
  else
    match strings.SplitN authHeader " " 2 with
    | [p0; p1] =>
        if decide (strings.ToLower unicode_lower p0 = "bearer")
        then
          let tokenStr := p1 in
          match VerifyToken fs tokenStr with
          | None => mkHandled Panic c [] []
          | Some ((_, Some err), lg) =>
              mkHandled (Abort (unauthorized "unauthorized")) c
                (lg ++ [mkLog LWarn "unauthorized request: %v" [AErr (Some err)]])
                [tokenStr]
          | Some ((tok, None), lg) =>
              mkHandled Next (Set_ "firebaseUser" (VToken tok) c) lg [tokenStr]
          end
        else mkHandled (Abort (unauthorized "invalid Authorization format")) c [] []
    | _ => mkHandled (Abort (unauthorized "invalid Authorization format")) c [] []
    end.

(** [GetFirebaseUser(c)]: the value under the key when it is a
    [*auth.Token], nil otherwise. *)
Definition GetFirebaseUser (c : Context) : option Token :=
  match Get "firebaseUser" c with
  | Some (VToken tok) => tok
  | _ => None
  end.


Inductive ClientOption : Type :=
| WithCredentialsFile (path : string).

(** What [NewFirebaseService] calls outside the package: [fb.NewApp],
    which reads the environment, and [app.Auth], whose client is the
    [AuthAPI] of the service. *)
Record Externals : Type := mkExternals {
  NewApp : Env -> list ClientOption -> option App * option error;
  AppAuth : App -> AuthAPI * option error
}.

(** How [NewFirebaseService] ends: it returns its pair, or [Auth] is
    called on a nil app. *)
Inductive Outcome : Type :=
| NilReceiver
| Return (fs : option FirebaseService) (err : option error).

(** What a call has done when it ends: the environment it leaves, the
    lines logged, and for each call of [fb.NewApp] the environment it
    was made in and its options. *)
Record Done : Type := mkDone {
  outcome : Outcome;
  environ : Env;
  logged : list LogEntry;
  apps : list (Env * list ClientOption)
}.


End Firebase.

End firebase.

(** A header of the form that [FirebaseAuthMiddleware] accepts: a scheme
    without a space that [strings.ToLower] maps to [bearer], one space,
    and the token, which is all that follows. *)
Definition bearer (unicode_lower : string -> string) (header scheme token : string) : Prop :=
  header = scheme +:+ " " +:+ token /\
  has_char " "%char scheme = false /\
  strings.ToLower unicode_lower scheme = "bearer".

(** The verifier of the tests of [pkg/firebase]: it knows one token. *)
Definition test_verifier : @firebase.AuthAPI string :=
  fun token =>
    if decide (token = "valid-token") then (Some "abc123", None)
    else (None, Some (Errorf "bad token")).

Definition test_firebase (auth : option (@firebase.AuthAPI string))
  : @firebase.FirebaseService string unit :=
  firebase.mkFirebaseService (Some (mkService "0" [])) None auth None.

Definition test_request (header : string) : @firebase.Context string unit :=
  firebase.mkContext header ∅.


(** ** pkg/firebase_service *)

Module firebase_service.

(** A claim of a token, a value of type [interface{}] as the JSON
    decoder fills it: nil, a boolean, a string, a list, an object or a
    value of another type (a number). *)
#[local] Unset Elimination Schemes.
Inductive Value : Type :=
| VNil
| VBool (b : bool)
| VString (s : string)
| VList (l : list Value)
| VMap (m : gmap string Value)
| VOther.
#[local] Set Elimination Schemes.

(** [m[key]] on a [map[string]interface{}]: nil when the key is absent. *)
Definition index (m : gmap string Value) (key : string) : Value :=
  default VNil (m !! key).

(** The text of a response: a string, or [fmt.Sprintf] with its format
    and its arguments, not rendered. *)
Inductive Arg : Type :=
| AValue (v : Value)
| AText (s : string).

Inductive Text : Type :=
| Literal (s : string)
| Sprintf (format : string) (args : list Arg).

(** A response written with [c.AbortWithStatusJSON(code, gin.H{error: text})]. *)
Record Response : Type := mkResponse {
  status : nat;
  error_ : Text
}.

Definition unauthorized (text : Text) : Response := mkResponse 401 text.

Record AuthResponse : Type := mkAuthResponse {
  RefreshToken : string;
  IDToken : string;
  SessionID : string;
  AccessToken : string
}.

(** [gin.Context], what this package reads of it: the first value of the
    Authorization header of the request (empty when the header is
    absent), and the value of its cookie [auth-cookie] when it has
    one. *)
Record Context : Type := mkContext {
  Authorization : string;
  auth_cookie : option string
}.

(** How a handler ends: with [c.Next()], with an aborted response, or in
    a panic. *)
Inductive Ending : Type :=
| Next
| Abort (r : Response)
| Panic.

Section Auth.

(** [*kms.KeyManagementClient]. *)
Context {Client : Type}.

(** What [Auth] and [DecodeSession] call outside the package. A result
    that the code uses without a test is the value itself: a client or
    an error, a plaintext or an error. [Unmarshal] is
    [json.Unmarshal(plaintext, &cookieResults)], whose error is dropped:
    the [*AuthResponse] it leaves, which JSON [null] sets to nil.
    [jwt_Parse] gives the claims of the token parsed with the key. An
    instant is a number of nanoseconds since the zero time. *)
Record Externals : Type := mkExternals {
  NewKeyManagementClient : Client + error;
  QueryUnescape : string -> string + error;
  Decrypt : Client -> string -> string -> string + error;
  Unmarshal : string -> option AuthResponse;
  jwt_Parse : string -> string -> gmap string Value + error;
  time_Parse : string -> Z + error
}.

Variable ext : Externals.

(** [DecodeSession(c, client)]. *)
Definition DecodeSession (env : Env) (c : Context) (client : Client)
  : option AuthResponse * option error :=
  match auth_cookie c with
  | None => (None, Some (Errorf "missing cookie"))
  | Some value =>
      match QueryUnescape ext value with
      | inr err => (None, Some err)
      | inl decodedCookie =>
          match Decrypt ext client (Getenv env "AUTH_KEY") decodedCookie with
          | inr err => (None, Some err)
          | inl plaintext => (Unmarshal ext plaintext, None)
          end
      end
  end.

(** The first part of the handler of [Auth]: the token string, from the
    session cookie when there is no Authorization header, else the
    second of the pieces that [Bearer ] cuts the header into. *)
Definition tokenString (env : Env) (c : Context) (client : Client) : Ending + string :=
  let authToken := Authorization c in
  if decide (authToken = EmptyString)
  then
    match DecodeSession env c client with
    | (_, Some err) => inl (Abort (unauthorized (Literal (Error err))))
    | (None, None) => inl Panic
    | (Some cookieResults, None) => inr (AccessToken cookieResults)
    end
  else
    match strings.Split authToken "Bearer " with
    | _ :: p1 :: _ => inr p1
    | _ => inl Panic
    end.

(** The inner loop over the permissions of the token: [None] where it
    aborts, at a permission that is not a string. *)
Fixpoint has_required (required : string) (permissions : list Value) (hasRequired : bool)
  : option bool :=
  match permissions with
  | [] => Some hasRequired
  | VString localPermission :: permissions' =>
      has_required required permissions'
        (if decide (localPermission = required) then true else hasRequired)
  | _ :: _ => None
  end.

(** The outer loop over the required permissions. *)
Fixpoint has_all_required (requiredPermissions : list string) (permissions : list Value)
    (hasAllRequired : bool) : option bool :=
  match requiredPermissions with
  | [] => Some hasAllRequired
  | required :: rest =>
      match has_required required permissions false with
      | None => None
      | Some hasRequired => has_all_required rest permissions hasRequired
      end
  end.

(** [v == b] for a claim [v] and a boolean constant [b]. *)
Definition is_bool (b : bool) (v : Value) : bool :=
  match v with
  | VBool b' => Bool.eqb b' b
  | _ => false
  end.

(** The second part of the handler: the checks of the claims. [today]
    is what [time.Now()] gives. *)
Definition authorize (today : Z) (requiredPermissions : list string)
    (claims : gmap string Value) : Ending :=
  let uid := AValue (index claims "uid") in
  if is_bool true (index claims "disabled")
  then Abort (unauthorized (Sprintf "user account %s is disabled" [uid]))
  else if is_bool false (index claims "emailVerified")
  then Abort (unauthorized (Sprintf "email for account %s is not verified" [uid]))
  else
  match index claims "license" with
  | VMap license =>
      match index license "startDate" with
      | VString start =>
          match time_Parse ext start with
          | inr err =>
              Abort (unauthorized (Sprintf "user %s does not have a valid license: %s"
                                     [uid; AText (Error err)]))
          | inl startDate =>
              match index license "endDate" with
              | VString end_ =>
                  match time_Parse ext end_ with
                  | inr err =>
                      Abort (unauthorized (Sprintf "user %s does not have a valid license %s"
                                             [uid; AText (Error err)]))
                  | inl endDate =>
                      if bool_decide (today < startDate)%Z
                      then Abort (unauthorized
                                    (Sprintf "license has not started for user %s" [uid]))
                      else if bool_decide (endDate < today)%Z
                                && negb (bool_decide (endDate = 0%Z))
                      then Abort (unauthorized
                                    (Sprintf "license has expired for user %s" [uid]))
                      else
                        match index claims "permissions" with
                        | VList permissions =>
                            match has_all_required requiredPermissions permissions true with
                            | None =>
                                Abort (unauthorized
                                         (Sprintf "error getting permissions for account %s"
                                            [uid]))
                            | Some false =>
                                Abort (unauthorized
                                         (Literal
                                            "missing required permissions to access this endpoint"))
                            | Some true => Next
                            end
                        | _ =>
                            Abort (unauthorized
                                     (Sprintf "user %s does not have any permissions" [uid]))
                        end
                  end
              | _ => Panic
              end
          end
      | _ => Panic
      end
  | _ => Abort (unauthorized (Sprintf "user %s does not have a valid license" [uid]))
  end.

(** [Auth(requiredPermissions)]: nil when the client cannot be made,
    else the handler, which reads the environment and the clock at each
    request. *)
Definition Auth (requiredPermissions : list string)
  : option (Env -> Z -> Context -> Ending) :=
  match NewKeyManagementClient ext with
  | inr _ => None
  | inl client =>
      Some (fun env today c =>
              match tokenString env c client with
              | inl e => e
              | inr token =>
                  match jwt_Parse ext token (Getenv env "AUTH_SECRET") with
                  | inr err =>
                      Abort (unauthorized (Sprintf "error parsing token: %s"
                                             [AText (Error err)]))
                  | inl claims => authorize today requiredPermissions claims
                  end
              end)
  end.

End Auth.

Definition swagger : Handler :=
  mkHandler "GET" "/swagger/*any" ["ginSwagger.WrapHandler(swaggerFiles.Handler)"].

(** The loop of [SetRoutes] over the map of the protected routes, in the
    order [order] in which the map hands out its entries; [auth i] is
    the handler that the call number [i] of [Auth] returned. [None]
    where [parts[1]] is out of range. *)
Fixpoint protect (auth : nat -> HandlerFunc) (i : nat) (order : list (string * HandlerFunc))
    (routes : list Handler) : option (list Handler) :=
  match order with
  | [] => Some routes
  | (route, handler) :: order' =>
      match strings.Split route "|" with
      | routeType :: path :: _ =>
          protect auth (S i) order' (routes ++ [mkHandler routeType path [auth i; handler]])
      | _ => None
      end
  end.

(** [SetRoutes(protected)] on the common service of [s]: the service
    with its new handlers, [None] when the call panics. *)
Definition SetRoutes (auth : nat -> HandlerFunc) (order : list (string * HandlerFunc))
    (common : Service) : option Service :=
  match protect auth 0 order [swagger] with
  | None => None
  | Some routes => Some (mkService (Port common) routes)
  end.

End firebase_service.

(** [sep] occurs in [s]. *)
Fixpoint occurs (sep s : string) : bool :=
  strings.HasPrefix s sep ||
  match s with
  | String _ s' => occurs sep s'
  | EmptyString => false
  end.

(** The permission [v] is a string. *)
Definition is_string (v : firebase_service.Value) : Prop :=
  exists s, v = firebase_service.VString s.

(** The claims that the handler of [Auth] lets through: the account is
    not marked disabled, the email not marked unverified, the license
    has a start that is not after today and an end that is not before
    today or is the zero time, and the permissions are a list; when
    permissions are required, that list holds strings only, the last of
    the required ones among them. *)
Definition admitted {Client : Type} (ext : @firebase_service.Externals Client)
    (today : Z) (requiredPermissions : list string)
    (claims : gmap string firebase_service.Value) : Prop :=
  firebase_service.index claims "disabled" <> firebase_service.VBool true /\
  firebase_service.index claims "emailVerified" <> firebase_service.VBool false /\
  exists license start end_ startDate endDate permissions,
    firebase_service.index claims "license" = firebase_service.VMap license /\
    firebase_service.index license "startDate" = firebase_service.VString start /\
    firebase_service.index license "endDate" = firebase_service.VString end_ /\
    firebase_service.time_Parse ext start = inl startDate /\
    firebase_service.time_Parse ext end_ = inl endDate /\
    (startDate <= today)%Z /\
    ((today <= endDate)%Z \/ endDate = 0%Z) /\
    firebase_service.index claims "permissions" = firebase_service.VList permissions /\
    (requiredPermissions = [] \/
     (Forall is_string permissions /\
      exists required,
        last requiredPermissions = Some required /\
        firebase_service.VString required ∈ permissions)).


(** Externals for the handler of [Auth] in the examples: the token [t1]
    parses to the claims of an account with a license that has begun and
    does not end, and the permissions [read] and [write]; instants are
    written as decimal digits of one figure. *)
Definition test_claims : gmap string firebase_service.Value :=
  {[ "uid" := firebase_service.VString "u1";
     "license" := firebase_service.VMap
                    {[ "startDate" := firebase_service.VString "1";
                       "endDate" := firebase_service.VString "0" ]};
     "permissions" := firebase_service.VList
                        [firebase_service.VString "read"; firebase_service.VString "write"] ]}.

Definition test_auth_externals : @firebase_service.Externals unit :=
  firebase_service.mkExternals
    (inl tt)
    (fun s => inl s)
    (fun _ _ s => inl s)
    (fun _ => None)
    (fun token _ => if decide (token = "t1") then inl test_claims
                    else inr (Errorf "token is malformed"))
    (fun s => if decide (s = "0") then inl 0%Z
              else if decide (s = "1") then inl 1%Z
              else inr (Errorf "parsing time")).


(** What stands in [s] before the first byte [d], all of [s] when there
    is none; and what follows that byte. *)
Fixpoint before (d : ascii) (s : string) : string :=
  match s with
  | EmptyString => EmptyString
  | String c s' => if decide (c = d) then EmptyString else String c (before d s')
  end.

Fixpoint after (d : ascii) (s : string) : string :=
  match s with
  | EmptyString => EmptyString
  | String c s' => if decide (c = d) then s' else after d s'
  end.

(** The route that [SetRoutes] makes of an entry of the map of protected
    routes: its type is what stands before the first bar of the key, its
    path what stands between the first bar and the second. *)
Definition protected_route (auth : nat -> HandlerFunc) (i : nat) (entry : string * HandlerFunc)
  : Handler :=
  mkHandler (before "|"%char entry.1) (before "|"%char (after "|"%char entry.1))
    [auth i; entry.2].

(** * Properties *)

(** ** The tests of the repository, on the embedding *)

(** [TestFormatAddr]. *)
Example TestFormatAddr : http.formatAddr "[::]:4000" = "http://localhost:4000".
Proof. reflexivity. Qed.

(** [TestNew_NilService] of [pkg/http] and of [pkg/server]. *)
Example TestNew_NilService :
  fst (http.New None "v1") = (None, Some (Errorf "service cannot be nil")) /\
  fst (server.New None "v1" (inl (server.mkListener "[::]:4000" false)))
    = (None, Some (Errorf "service cannot be nil")).
Proof. split; reflexivity. Qed.

(** [TestNew_HTTPServiceCreation] and [TestRoutesAreRegistered]: the one
    route of the service is in the table, under the versioned group. *)
Example TestRoutesAreRegistered :
  exists h,
    fst (http.New (Some ping_service) "v1") = (Some h, None) /\
    http.routes (http.Engine_ h) = [http.mkRoute "GET" "/api/v1" "/ping" ["pong"]] /\
    http.srvHandler (http.Server_ h) = http.Engine_ h.
Proof. eexists. repeat split. Qed.

(** [TestShutdownCompletes]: [Shutdown] on a server that never ran. *)
Example TestShutdownCompletes :
  snd (server.Shutdown server.DoneFirst (server.fresh ping_server)) = None.
Proof. reflexivity. Qed.

(** [TestRun_GRPCOnly] and [TestRun_MixedProtocol]: the caller cancels,
    the units come back, [Run] returns an error. *)
Example TestRun_GRPCOnly :
  option_map server.phase
    (server.exec (mode "grpc")
       [server.EvRun; server.EvCtxDone Canceled; server.EvWatcher;
        server.EvUnitReturn UCmux (Some ErrNetClosed);
        server.EvUnitReturn UGrpc (Some ErrMuxClosed);
        server.EvWait]
       (server.fresh ping_server))
  = Some (server.Returned (Some ErrNetClosed)).
Proof. vm_compute. reflexivity. Qed.

Example TestRun_MixedProtocol :
  option_map server.phase
    (server.exec no_mode
       [server.EvRun; server.EvCtxDone Canceled; server.EvWatcher;
        server.EvUnitReturn UCmux (Some ErrNetClosed);
        server.EvUnitReturn UHttp (Some ErrMuxClosed);
        server.EvUnitReturn UGrpc (Some ErrMuxClosed);
        server.EvWait]
       (server.fresh ping_server))
  = Some (server.Returned (Some ErrNetClosed)).
Proof. vm_compute. reflexivity. Qed.

(** ** [http.New] *)

Lemma register_recognized group e log h :
  recognized (Method h) = true ->
  http.register group (e, log) h = (http.handle (Method h) group h e, log).
Proof.
  unfold recognized, http.register. intros Hr.
  apply bool_decide_eq_true_1 in Hr.
  rewrite !elem_of_cons in Hr.
  unfold http.MethodGet, http.MethodPut, http.MethodPost, http.MethodDelete.
  repeat case_decide; try congruence.
  destruct Hr as [?|[?|[?|[?|Hnil]]]]; try congruence.
  by apply elem_of_nil in Hnil.
Qed.

Lemma register_unrecognized group e log h :
  recognized (Method h) = false ->
  http.register group (e, log) h = (e, log ++ [warning_of h]).
Proof.
  unfold recognized, http.register. intros Hr.
  apply bool_decide_eq_false_1 in Hr.
  rewrite !elem_of_cons in Hr.
  unfold http.MethodGet, http.MethodPut, http.MethodPost, http.MethodDelete.
  repeat case_decide; try reflexivity; exfalso; apply Hr; auto.
Qed.

Lemma foldl_register version hs : forall e log,
  foldl (http.register ("/api/" +:+ version)) (e, log) hs =
  (http.mkEngine (http.middleware e)
     (http.routes e ++ map (route_of version) (List.filter (fun h => recognized (Method h)) hs)),
   log ++ map warning_of (List.filter (fun h => negb (recognized (Method h))) hs)).
Proof.
  induction hs as [|h hs IH]; intros e log; cbn [foldl List.filter].
  - simpl. rewrite !app_nil_r. by destruct e.
  - destruct (recognized (Method h)) eqn:Hr; cbn [negb map].
    + rewrite (register_recognized _ _ _ _ Hr), IH. cbn.
      by rewrite <- app_assoc.
    + rewrite (register_unrecognized _ _ _ _ Hr), IH.
      by rewrite <- app_assoc.
Qed.


(** ** [Run]: the units and the rules of a mode *)

Lemma http_New_Some s version :
  exists h log, http.New (Some s) version = ((Some h, None), log).
Proof.
  unfold http.New. rewrite foldl_register. cbn. eauto.
Qed.

Lemma http_New_None version :
  http.New None version = ((None, Some (Errorf "service cannot be nil")), []).
Proof. reflexivity. Qed.

#[local] Arguments http.New : simpl never.

Lemma ping_server_New :
  fst (server.New (Some ping_service) "v1" (inl (server.mkListener "[::]:4000" false)))
  = (Some ping_server, None).
Proof. reflexivity. Qed.

(** The branches of [Run_start]: the two tests of the mode, then what
    [http.New] gives for the service of the server. *)
Ltac run_start_cases w :=
  let s := fresh "s" in
  let h := fresh "h" in
  let log := fresh "log" in
  destruct w as [[? ? [s|] ? ?] ? ? ? ? ? ? ?];
  unfold server.Run_start, init_fails, protocol;
  repeat case_decide; cbn;
  try (destruct (http_New_Some s ltac:(eassumption)) as (h & log & ->));
  try rewrite http_New_None;
  cbn; try congruence; try reflexivity.

(** The units of [Run] at its [g.Wait()], or at its early return. *)
Lemma Run_start_running env w :
  errgroup.running (server.group (server.Run_start env w)) =
  (if decide (protocol env = "http") then [] else [UGrpc]) ++
  (if decide (protocol env = "grpc") then [UCmux]
   else match server.Service_ (server.srv w) with
        | Some _ => [UHttp; UCmux]
        | None => []
        end).
Proof. run_start_cases w. Qed.

Lemma Run_start_err env w :
  errgroup.err (server.group (server.Run_start env w)) = None.
Proof. run_start_cases w. Qed.

Lemma Run_start_phase env w :
  server.phase (server.Run_start env w) =
  if init_fails env w then server.Returned (Some init_error) else server.Running.
Proof.
  run_start_cases w; repeat case_bool_decide; cbn; try congruence; try reflexivity.
Qed.

(** Two incompatible facts about the mode. *)
Ltac mode_clash :=
  match goal with
  | H1 : ?p = ?a, H2 : ?p = ?b |- _ => rewrite H1 in H2; discriminate H2
  | H1 : ?p = ?a, H2 : ?p <> ?a |- _ => destruct (H2 H1)
  end.

(** The Server Tasks of [Run] in every mode and for every server. *)
Lemma Run_start_tasks env w :
  tasks (server.group (server.Run_start env w)) =
  (if decide (protocol env = "http") then [] else [UGrpc]) ++
  (if decide (protocol env = "grpc") then []
   else match server.Service_ (server.srv w) with
        | Some _ => [UHttp]
        | None => []
        end).
Proof.
  unfold tasks. rewrite Run_start_running.
  destruct (server.Service_ (server.srv w)); repeat case_decide; reflexivity.
Qed.




(** ** [Run] and the environment *)

(** The rules [Run] gives to the multiplexer. *)
Lemma Run_start_mux env w :
  server.mux (server.Run_start env w) =
  (if decide (protocol env = "http") then []
   else [([server.HTTP2MatchHeaderFieldSendSettings "content-type" "application/grpc";
           server.HTTP2MatchHeaderFieldSendSettings "content-type" "application/grpc+proto"],
          UGrpc)]) ++
  (if decide (protocol env = "grpc") then [] else [([server.HTTP1Fast], UHttp)]).
Proof. run_start_cases w. Qed.

(** C6, as stated, fails: the same server run under two environments is
    given different units and different rules; [Run] looks the mode up
    itself. *)
Lemma Run_depends_on_environment :
  errgroup.running (server.group (server.Run_start (mode "http") (server.fresh ping_server)))
    = [UHttp; UCmux] /\
  errgroup.running (server.group (server.Run_start (mode "grpc") (server.fresh ping_server)))
    = [UGrpc; UCmux] /\
  server.mux (server.Run_start (mode "http") (server.fresh ping_server))
    <> server.mux (server.Run_start (mode "grpc") (server.fresh ping_server)).
Proof.
  split; [reflexivity|]. split; [reflexivity|].
  intros H. vm_compute in H. discriminate H.
Qed.

Lemma Run_start_env env1 env2 w :
  protocol env1 = protocol env2 ->
  server.Run_start env1 w = server.Run_start env2 w.
Proof.
  unfold protocol, server.Run_start. intros ->. reflexivity.
Qed.

Lemma step_env env1 env2 ev w :
  protocol env1 = protocol env2 ->
  server.step env1 ev w = server.step env2 ev w.
Proof.
  intros H. destruct ev; try reflexivity.
  simpl. destruct (server.phase w); try reflexivity.
  by rewrite (Run_start_env _ _ _ H).
Qed.

(** C6, amended. [Run] reads the variable SERVICE_PROTOCOL of the
    environment when it is called (the older [Run] reads it twice), and
    nothing else of the environment: two executions with the same server
    and the same events under environments that agree on that variable go
    through the same states, so they have the same units and the same
    rules; the same holds for the older [Run]. *)
Theorem Run_reads_only_SERVICE_PROTOCOL (env1 env2 : Env) (evs : list server.Event)
    (w : server.World) (svc : Service) (version : string) :
  protocol env1 = protocol env2 ->
  server.exec env1 evs w = server.exec env2 evs w /\
  server.Run_old env1 env1 svc version = server.Run_old env2 env2 svc version.
Proof.
  intros H. split.
  - revert w. induction evs as [|ev evs IH]; intros w; simpl; [reflexivity|].
    rewrite (step_env _ _ _ _ H). destruct (server.step env2 ev w); auto.
  - unfold server.Run_old. unfold protocol in H. rewrite H. reflexivity.
Qed.

Lemma Run_reads_only_SERVICE_PROTOCOL_witness :
  protocol (Setenv "PORT" "4000" (mode "http")) = protocol (Setenv "PORT" "80" (mode "http")) /\
  server.exec (Setenv "PORT" "4000" (mode "http")) [server.EvRun] (server.fresh ping_server)
  = server.exec (Setenv "PORT" "80" (mode "http")) [server.EvRun] (server.fresh ping_server).
Proof.
  split; [reflexivity|].
  apply (Run_reads_only_SERVICE_PROTOCOL _ _ [server.EvRun] (server.fresh ping_server)
           ping_service "v1").
  reflexivity.
Defined.

(** ** The serve unit of the multiplexer, in [Run] and in the older [Run] *)

Lemma init_fails_false env w :
  init_fails env w = false <->
  protocol env = "grpc" \/ exists s, server.Service_ (server.srv w) = Some s.
Proof.
  unfold init_fails. rewrite andb_false_iff, !bool_decide_eq_false. split.
  - intros [H|H].
    + left. by destruct (decide (protocol env = "grpc")).
    + right. destruct (server.Service_ (server.srv w)); [eauto | done].
  - intros [H|[s H]]; [left; tauto | right; congruence].
Qed.

(** C9. When the making of the HTTP service does not fail, [Run] spawns
    the serve unit of the multiplexer exactly once, in every mode. The
    older [Run] spawns it once when the mode is not [grpc] and not at all
    when it is: in mode [grpc] the newer [Run] waits for the gRPC task and
    the serve unit, the older one for the gRPC task alone. *)
Theorem Run_spawns_cmux_once (env : Env) (w : server.World) (svc : Service) (version : string) :
  init_fails env w = false ->
  spawned_times UCmux (server.group (server.Run_start env w)) = 1 /\
  (exists m g,
     server.Run_old env env svc version = Some (m, g) /\
     spawned_times UCmux g = (if decide (protocol env = "grpc") then 0 else 1)) /\
  (protocol env = "grpc" ->
     errgroup.running (server.group (server.Run_start env w)) = [UGrpc; UCmux] /\
     option_map (fun r => errgroup.running (snd r)) (server.Run_old env env svc version)
       = Some [UGrpc]).
Proof.
  intros Hok. apply init_fails_false in Hok. unfold spawned_times.
  rewrite Run_start_running.
  split; [|split].
  - destruct Hok as [Hg | [s Hs]].
    + rewrite Hg. reflexivity.
    + rewrite Hs. repeat case_decide; reflexivity.
  - unfold server.Run_old, protocol. cbn.
    repeat case_decide; try mode_clash; eexists _, _; split; reflexivity.
  - intros Hg. unfold server.Run_old. rewrite Hg. unfold protocol in Hg.
    rewrite !Hg. split; reflexivity.
Qed.

Lemma Run_spawns_cmux_once_witness :
  init_fails (mode "grpc") (server.fresh ping_server) = false /\
  spawned_times UCmux (server.group (server.Run_start (mode "grpc") (server.fresh ping_server))) = 1 /\
  option_map (fun r => errgroup.running (snd r))
    (server.Run_old (mode "grpc") (mode "grpc") ping_service "v1") = Some [UGrpc].
Proof.
  split; [reflexivity|].
  destruct (Run_spawns_cmux_once (mode "grpc") (server.fresh ping_server) ping_service "v1")
    as (H1 & _ & H3); [reflexivity|].
  split; [exact H1 | apply H3; reflexivity].
Defined.

(** ** Executions *)

Lemma exec_app env evs1 evs2 w :
  server.exec env (evs1 ++ evs2) w =
  match server.exec env evs1 w with
  | Some w' => server.exec env evs2 w'
  | None => None
  end.
Proof.
  revert w. induction evs1 as [|ev evs1 IH]; intros w; simpl; [reflexivity|].
  destruct (server.step env ev w); [apply IH | reflexivity].
Qed.

Lemma unit_returns_app evs1 evs2 :
  server.unit_returns (evs1 ++ evs2) = server.unit_returns evs1 ++ server.unit_returns evs2.
Proof.
  induction evs1 as [|[] evs1 IH]; simpl; rewrite ?IH; reflexivity.
Qed.

Lemma first_error_app rs1 rs2 :
  server.first_error (rs1 ++ rs2) =
  server.or_else (server.first_error rs1) (server.first_error rs2).
Proof.
  induction rs1 as [|[u [e|]] rs1 IH]; simpl; auto.
Qed.

Lemma close_listener_frame w :
  server.phase (server.close_listener w) = server.phase w /\
  server.group (server.close_listener w) = server.group w /\
  server.ctxs (server.close_listener w) = server.ctxs w /\
  server.watcher (server.close_listener w) = server.watcher w /\
  server.pending (server.close_listener w) = server.pending w /\
  server.mux (server.close_listener w) = server.mux w.
Proof.
  unfold server.close_listener, server.Close.
  destruct (server.closed _); repeat split.
Qed.

#[local] Arguments server.close_listener : simpl never.

Lemma Shutdown_bg_frame w :
  server.phase (server.Shutdown_bg w) = server.phase w /\
  server.group (server.Shutdown_bg w) = server.group w /\
  server.ctxs (server.Shutdown_bg w) = server.ctxs w /\
  server.watcher (server.Shutdown_bg w) = server.watcher w /\
  server.pending (server.Shutdown_bg w) = server.pending w /\
  server.mux (server.Shutdown_bg w) = server.mux w.
Proof.
  unfold server.Shutdown_bg. cbn.
  match goal with |- context [server.close_listener ?x] =>
    destruct (close_listener_frame x) as (-> & -> & -> & -> & -> & ->) end.
  repeat split.
Qed.

#[local] Arguments server.Shutdown_bg : simpl never.

Lemma Shutdown_frame sel w :
  server.phase (fst (server.Shutdown sel w)) = server.phase w /\
  server.group (fst (server.Shutdown sel w)) = server.group w /\
  server.watcher (fst (server.Shutdown sel w)) = server.watcher w /\
  server.mux (fst (server.Shutdown sel w)) = server.mux w.
Proof.
  unfold server.Shutdown.
  destruct sel; destruct (server.cancel (server.srv w)) as [[]|]; cbn;
    try match goal with |- context [server.Shutdown_bg ?x] =>
      destruct (Shutdown_bg_frame x) as (-> & -> & _ & -> & _ & ->) end;
    repeat split.
Qed.

(** When [g.Wait()] returns, the context of the group is done: the test
    before the error line of [Run] is never passed. *)
Lemma Run_wait_Some w w' :
  server.Run_wait w = Some w' ->
  server.phase w = server.Running /\
  errgroup.running (server.group w) = [] /\
  w' = server.set_phase (server.Returned (errgroup.err (server.group w)))
         (server.set_ctxs (server.cancel_grp (server.ctxs w)) w).
Proof.
  unfold server.Run_wait, errgroup.Wait.
  destruct (server.phase w); try discriminate.
  destruct (errgroup.running (server.group w)); try discriminate.
  destruct (errgroup.err (server.group w)); cbn;
    destruct (server.grp (server.ctxs w)); cbn; intros H; inversion H; auto.
Qed.

Lemma step_step_kind env ev w w' :
  server.step env ev w = Some w' -> step_kind env w w' ev.
Proof.
  destruct ev as [|e|u r| | |sel|]; simpl; intros H.
  - destruct (server.phase w) eqn:Hp; inversion H. by constructor.
  - inversion H. by constructor.
  - unfold server.unit_return in H. case_decide as Hin; [|discriminate].
    cbn in H.
    destruct (errgroup.done u r (server.group w)) as [g first] eqn:Hd.
    inversion H. destruct first; constructor; auto; cbn; by rewrite Hd.
  - apply Run_wait_Some in H as (Hp & Hr & ->). by constructor.
  - unfold server.watch in H.
    destruct (server.watcher w); try discriminate.
    destruct (server.grp (server.ctxs w)); [|discriminate].
    inversion H. cbn.
    match goal with |- context [server.close_listener ?x] =>
      destruct (close_listener_frame x) as (Hp & Hg & _) end.
    by constructor.
  - inversion H. destruct (Shutdown_frame sel w) as (Hp & Hg & _).
    by constructor.
  - destruct (server.pending w); [discriminate|]. inversion H. cbn.
    destruct (Shutdown_bg_frame w) as (Hp & Hg & _).
    by constructor.
Qed.

(** ** [Run]: first error wins *)

Lemma remove1_Permutation u l :
  u ∈ l -> u :: errgroup.remove1 u l ≡ₚ l.
Proof.
  induction l as [|v l IH]; intros Hin; [by apply elem_of_nil in Hin|].
  simpl. case_decide as Huv.
  - by subst.
  - apply elem_of_cons in Hin as [?|Hin]; [done|].
    rewrite Permutation_swap. by rewrite IH.
Qed.

Lemma done_running u r g :
  errgroup.running (fst (errgroup.done u r g)) = errgroup.remove1 u (errgroup.running g).
Proof. unfold errgroup.done. destruct r, (errgroup.err g); reflexivity. Qed.

Lemma done_err u r g :
  errgroup.err (fst (errgroup.done u r g)) = server.or_else (errgroup.err g) r.
Proof. unfold errgroup.done. destruct r, (errgroup.err g); reflexivity. Qed.

(** The state of the group between the [g.Go] calls of [Run] and its
    return, for the units [sp] that were started and the returns [rets]
    seen so far. *)
Lemma step_run_inv env ev w w' sp rets :
  server.step env ev w = Some w' ->
  map fst rets ++ errgroup.running (server.group w) ≡ₚ sp ->
  errgroup.err (server.group w) = server.first_error rets ->
  (server.phase w = server.Running \/
   (server.phase w = server.Returned (errgroup.err (server.group w)) /\
    errgroup.running (server.group w) = [])) ->
  map fst (rets ++ server.unit_returns [ev]) ++ errgroup.running (server.group w') ≡ₚ sp /\
  errgroup.err (server.group w') = server.first_error (rets ++ server.unit_returns [ev]) /\
  (server.phase w' = server.Running \/
   (server.phase w' = server.Returned (errgroup.err (server.group w')) /\
    errgroup.running (server.group w') = [])).
Proof.
  intros Hstep Hperm Herr Hph.
  apply step_step_kind in Hstep.
  destruct Hstep as [Hc _ | u r Hin Hp Hg | Hp Hr Hp' Hg | ev Hn1 Hn2 Hn3 Hp Hg].
  - destruct Hph as [Hph | [Hph _]]; congruence.
  - rewrite Hg, Hp, done_running, done_err. simpl.
    split; [|split].
    + rewrite map_app, <- app_assoc. simpl.
      by rewrite (remove1_Permutation _ _ Hin).
    + rewrite first_error_app, Herr. simpl. by destruct r.
    + destruct Hph as [Hph | [_ Hnil]]; [by left|].
      rewrite Hnil in Hin. by apply elem_of_nil in Hin.
  - rewrite Hg, Hp'. simpl. rewrite app_nil_r. auto.
  - rewrite Hg, Hp.
    assert (server.unit_returns [ev] = []) as ->.
    { destruct ev; try reflexivity. by destruct (Hn2 u r). }
    rewrite app_nil_r. auto.
Qed.

Lemma exec_run_inv env evs : forall w w' sp rets,
  server.exec env evs w = Some w' ->
  map fst rets ++ errgroup.running (server.group w) ≡ₚ sp ->
  errgroup.err (server.group w) = server.first_error rets ->
  (server.phase w = server.Running \/
   (server.phase w = server.Returned (errgroup.err (server.group w)) /\
    errgroup.running (server.group w) = [])) ->
  map fst (rets ++ server.unit_returns evs) ++ errgroup.running (server.group w') ≡ₚ sp /\
  errgroup.err (server.group w') = server.first_error (rets ++ server.unit_returns evs) /\
  (server.phase w' = server.Running \/
   (server.phase w' = server.Returned (errgroup.err (server.group w')) /\
    errgroup.running (server.group w') = [])).
Proof.
  induction evs as [|ev evs IH]; intros w w' sp rets Hex Hperm Herr Hph.
  - inversion Hex; subst. simpl. rewrite app_nil_r. auto.
  - simpl in Hex. destruct (server.step env ev w) as [w1|] eqn:Hstep; [|discriminate].
    destruct (step_run_inv _ _ _ _ _ _ Hstep Hperm Herr Hph) as (H1 & H2 & H3).
    specialize (IH _ _ _ _ Hex H1 H2 H3).
    change (ev :: evs) with ([ev] ++ evs).
    rewrite unit_returns_app, app_assoc. exact IH.
Qed.





(** ** The trace: error lines and calls of [Close] *)

Lemma close_listener_trace w :
  server.trace (server.close_listener w) =
    server.trace w ++
    [server.FxClose (if server.closed (server.Listener_ (server.srv w))
                     then Some ErrNetClosed else None)] /\
  server.closed (server.Listener_ (server.srv (server.close_listener w))) = true /\
  server.GRPCServer (server.srv (server.close_listener w)) = server.GRPCServer (server.srv w) /\
  server.cancel (server.srv (server.close_listener w)) = server.cancel (server.srv w).
Proof.
  unfold server.close_listener, server.Close.
  destruct (server.closed (server.Listener_ (server.srv w))) eqn:Hc; cbn; auto.
Qed.

Lemma Shutdown_bg_trace w :
  server.trace (server.Shutdown_bg w) =
    server.trace w ++
    [server.FxLog (mkLog LInfo "Stopping gRPC server..." []);
     server.FxGracefulStop;
     server.FxClose (if server.closed (server.Listener_ (server.srv w))
                     then Some ErrNetClosed else None)] /\
  server.closed (server.Listener_ (server.srv (server.Shutdown_bg w))) = true /\
  grpc.stopped (server.GRPCServer (server.srv (server.Shutdown_bg w))) = true /\
  server.cancel (server.srv (server.Shutdown_bg w)) = server.cancel (server.srv w).
Proof.
  unfold server.Shutdown_bg. cbn.
  match goal with |- context [server.close_listener ?x] =>
    destruct (close_listener_trace x) as (-> & -> & -> & ->) end.
  cbn. rewrite <- app_assoc. auto.
Qed.













(** ** The root listener: how often it is closed *)

Lemma Run_start_watcher env w :
  server.watcher (server.Run_start env w) = server.Armed.
Proof. run_start_cases w. Qed.






(** ** [Run]: closure errors after a shutdown *)


Lemma Run_start_UCmux env w :
  init_fails env w = false ->
  UCmux ∈ errgroup.running (server.group (server.Run_start env w)).
Proof.
  intros Hok. apply init_fails_false in Hok. rewrite Run_start_running.
  apply elem_of_app. right.
  destruct Hok as [-> | [s ->]]; repeat case_decide;
    rewrite ?elem_of_cons; auto; done.
Qed.



(** ** [Shutdown] *)


(** All the fields of a world, for a case analysis on the ones [Shutdown]
    looks at. *)
Ltac world_cases w :=
  destruct w as [[[? ?] [? []] ? ? [[]|]] [? [?|] [?|]] ? ? ? ? ? ?].



(** ** Byte fidelity of the multiplexer's reader *)

Lemma sniff_spec k c :
  cmux.lookahead (cmux.sniff k c) = cmux.lookahead c ++ take k (cmux.socket c) /\
  cmux.socket (cmux.sniff k c) = drop k (cmux.socket c).
Proof. split; reflexivity. Qed.

Lemma sniffs_spec ks : forall c,
  cmux.lookahead (cmux.sniffs ks c) = cmux.lookahead c ++ take (sum_list ks) (cmux.socket c) /\
  cmux.socket (cmux.sniffs ks c) = drop (sum_list ks) (cmux.socket c).
Proof.
  induction ks as [|k ks IH]; intros c.
  - cbn. rewrite take_0, drop_0, app_nil_r. auto.
  - change (cmux.sniffs (k :: ks) c) with (cmux.sniffs ks (cmux.sniff k c)).
    destruct (IH (cmux.sniff k c)) as [-> ->]. cbn [sum_list sum_list_with].
    destruct (sniff_spec k c) as [-> ->].
    rewrite drop_drop, <- app_assoc, take_take_drop. auto.
Qed.

(** The lookahead moves bytes from the socket to the buffer and loses
    none. *)
Lemma sniffs_remaining ks c : remaining (cmux.sniffs ks c) = remaining c.
Proof.
  unfold remaining. destruct (sniffs_spec ks c) as [-> ->].
  by rewrite <- app_assoc, take_drop.
Qed.

Lemma read_spec n c :
  fst (cmux.read n c) = take n (remaining c) /\
  remaining (snd (cmux.read n c)) = drop n (remaining c).
Proof.
  unfold cmux.read, remaining. cbn.
  rewrite take_app, drop_app, length_take.
  replace (n - n `min` length (cmux.lookahead c)) with (n - length (cmux.lookahead c)) by lia.
  auto.
Qed.

Lemma reads_spec ns : forall c,
  fst (cmux.reads ns c) = take (sum_list ns) (remaining c) /\
  remaining (snd (cmux.reads ns c)) = drop (sum_list ns) (remaining c).
Proof.
  induction ns as [|n ns IH]; intros c.
  - cbn. rewrite take_0, drop_0. auto.
  - cbn [cmux.reads sum_list sum_list_with].
    destruct (read_spec n c) as [Hb Hc].
    destruct (cmux.read n c) as [b c']. cbn [fst snd] in Hb, Hc.
    destruct (IH c') as [Hbs Hcs].
    destruct (cmux.reads ns c') as [bs c'']. cbn [fst snd] in *.
    rewrite Hb, Hbs, Hcs, Hc, drop_drop, take_take_drop. auto.
Qed.

(** C8. A stream goes through the Matcher, whose lookahead is taken in
    any pieces [ks], and is then read by the consumer in any pieces [ns].
    What the consumer has observed is the stream up to the number of
    bytes it asked for, in order; with what is left on the connection it
    is the whole stream; and a consumer whose last read asks for all that
    can be left has observed exactly the stream. The tag is decided on
    the leading bytes alone and the observed bytes do not depend on the
    rules or on where the lookahead stopped. *)
Theorem replay_byte_fidelity
    (rules : list cmux.MatchRule) (ks ns : list nat) (stream : list Byte.byte) :
  fst (cmux.reads ns (cmux.sniffs ks (cmux.accept stream))) = take (sum_list ns) stream /\
  fst (cmux.reads ns (cmux.sniffs ks (cmux.accept stream))) ++
    remaining (snd (cmux.reads ns (cmux.sniffs ks (cmux.accept stream)))) = stream /\
  fst (cmux.reads (ns ++ [length stream]) (cmux.sniffs ks (cmux.accept stream))) = stream /\
  cmux.pipeline rules ks ns stream =
    option_map (fun tag => (tag, take (sum_list ns) stream))
      (cmux.classify rules (take (sum_list ks) stream)).
Proof.
  assert (forall ms, fst (cmux.reads ms (cmux.sniffs ks (cmux.accept stream)))
                     = take (sum_list ms) stream) as Hobs.
  { intros ms. rewrite (proj1 (reads_spec ms _)), sniffs_remaining. reflexivity. }
  split; [apply Hobs|]. split; [|split].
  - rewrite (proj1 (reads_spec ns _)), (proj2 (reads_spec ns _)), sniffs_remaining.
    apply take_drop.
  - rewrite Hobs. apply take_ge. rewrite sum_list_with_app. cbn. lia.
  - unfold cmux.pipeline. rewrite Hobs.
    rewrite (proj1 (sniffs_spec ks _)). cbn.
    destruct (cmux.classify rules (take (sum_list ks) stream)); reflexivity.
Qed.

(** * Further properties of the code *)

(** ** [formatAddr] *)

Lemma formatAddr_no_bracket s :
  has_char "["%char s = false -> http.formatAddr s = s.
Proof.
  induction s as [|c s IH]; [reflexivity|].
  cbn [has_char]. intros H. apply orb_false_iff in H as [Hc Hs].
  apply bool_decide_eq_false in Hc.
  assert (http.formatAddr (String c s) = String c (http.formatAddr s)) as ->.
  { destruct c as [[] [] [] [] [] [] [] []]; try reflexivity. by destruct Hc. }
  by rewrite IH.
Qed.

(** X1. [formatAddr] rewrites the wildcard host and nothing else: an
    address in which no [[] occurs (a host name, an IPv4 address) comes
    back as it is, and for the wildcard address [[::]] followed by a port
    the result is [http://localhost] followed by that port. *)
Theorem formatAddr_wildcard_host (rest : string) :
  has_char "["%char rest = false ->
  http.formatAddr rest = rest /\
  http.formatAddr ("[::]" +:+ rest) = "http://localhost" +:+ rest.
Proof.
  intros H. split; [by apply formatAddr_no_bracket|].
  change (http.formatAddr ("[::]" +:+ rest))
    with ("http://localhost" +:+ http.formatAddr rest).
  by rewrite formatAddr_no_bracket.
Qed.

Lemma formatAddr_wildcard_host_witness :
  has_char "["%char ":4000" = false /\
  http.formatAddr ":4000" = ":4000" /\
  http.formatAddr ("[::]" +:+ ":4000") = "http://localhost" +:+ ":4000".
Proof.
  split; [reflexivity|]. apply (formatAddr_wildcard_host ":4000"). reflexivity.
Defined.

(** ** [http.New], newer and older *)

Lemma register_old_recognized group e h :
  recognized (Method h) = true ->
  http.register_old group e h = http.handle (Method h) group h e.
Proof.
  unfold recognized, http.register_old. intros Hr.
  apply bool_decide_eq_true_1 in Hr.
  rewrite !elem_of_cons in Hr.
  repeat case_decide; try congruence.
  destruct Hr as [?|[?|[?|[?|Hnil]]]]; try congruence.
  by apply elem_of_nil in Hnil.
Qed.

Lemma register_old_unrecognized group e h :
  recognized (Method h) = false ->
  http.register_old group e h = e.
Proof.
  unfold recognized, http.register_old. intros Hr.
  apply bool_decide_eq_false_1 in Hr.
  rewrite !elem_of_cons in Hr.
  repeat case_decide; try reflexivity; exfalso; apply Hr; auto.
Qed.

Lemma foldl_register_old version hs : forall e,
  foldl (http.register_old ("/api/" +:+ version)) e hs =
  http.mkEngine (http.middleware e)
    (http.routes e ++ map (route_of version) (List.filter (fun h => recognized (Method h)) hs)).
Proof.
  induction hs as [|h hs IH]; intros e; cbn [foldl List.filter].
  - simpl. rewrite app_nil_r. by destruct e.
  - destruct (recognized (Method h)) eqn:Hr; cbn [map].
    + rewrite (register_old_recognized _ _ _ Hr), IH. cbn.
      by rewrite <- app_assoc.
    + by rewrite (register_old_unrecognized _ _ _ Hr), IH.
Qed.

(** X2. The older [http.New] and the newer one build the same service
    for every non-nil [svc] and version: the same middleware, the same
    routes in the same order, the same server, and a nil error. The
    newer one differs only by its test for a nil [svc] and by the
    warnings it logs for the handlers both skip. *)
Theorem http_New_old_same_service (svc : Service) (version : string) :
  http.New_old svc version = fst (http.New (Some svc) version) /\
  snd (http.New_old svc version) = None.
Proof.
  unfold http.New_old, http.New.
  rewrite foldl_register_old, foldl_register. split; reflexivity.
Qed.


(** ** [server.New] *)

(** X4. On a server that [server.New] returned, [Run] never stops at the
    making of the HTTP service: in every mode it gets to its [g.Wait()]
    with the serve unit of the multiplexer among its units, and a
    [Shutdown] called on it before [Run] finds no cancel function to
    call. *)
Theorem Run_on_New_server_starts (env : Env) (svc : Service) (version : string)
    (l : server.Listener) (srv : server.Server) (log : list LogEntry) :
  server.New (Some svc) version (inl l) = ((Some srv, None), log) ->
  init_fails env (server.fresh srv) = false /\
  server.phase (server.Run_start env (server.fresh srv)) = server.Running /\
  UCmux ∈ errgroup.running (server.group (server.Run_start env (server.fresh srv))) /\
  server.ctxs (fst (server.Shutdown server.DoneFirst (server.fresh srv)))
    = server.ctxs (server.fresh srv).
Proof.
  cbn. intros H. inversion H; subst. clear H.
  assert (init_fails env
            (server.fresh (server.mkServer (grpc.mkGRPCService false (Some svc)) l
                             (Some svc) version None)) = false) as Hok.
  { apply init_fails_false. right. by exists svc. }
  split; [exact Hok|]. split; [|split].
  - by rewrite Run_start_phase, Hok.
  - by apply Run_start_UCmux.
  - by destruct l as [a []].
Qed.

Lemma Run_on_New_server_starts_witness :
  server.New (Some ping_service) "v1" (inl (server.mkListener "[::]:4000" false))
    = ((Some ping_server, None), [mkLog LInfo "gRPC reflection enabled" []]) /\
  server.phase (server.Run_start (mode "http") (server.fresh ping_server)) = server.Running.
Proof.
  split; [reflexivity|].
  apply (Run_on_New_server_starts (mode "http") ping_service "v1"
           (server.mkListener "[::]:4000" false) ping_server
           [mkLog LInfo "gRPC reflection enabled" []] eq_refl).
Defined.

(** ** The context of the group and the watcher *)

Lemma or_else_is_Some a b : is_Some a -> is_Some (server.or_else a b).
Proof. by destruct a. Qed.

Lemma or_else_Some_r a b : is_Some (server.or_else a (Some b)).
Proof. destruct a; cbn; eauto. Qed.

Lemma Shutdown_grp_closed sel w :
  (is_Some (server.grp (server.ctxs w)) ->
   is_Some (server.grp (server.ctxs (fst (server.Shutdown sel w))))) /\
  (server.closed (server.Listener_ (server.srv w)) = true ->
   server.closed (server.Listener_ (server.srv (fst (server.Shutdown sel w)))) = true).
Proof.
  world_cases w; destruct sel; cbv; split; intros H; eauto; try discriminate;
    by destruct H.
Qed.

Lemma step_started_inv env ev w w' :
  server.step env ev w = Some w' -> started_inv w -> started_inv w'.
Proof.
  unfold started_inv. intros H (Hc & Herr & Hret & Hw & Hf).
  destruct ev as [|e|u r| | |sel|]; simpl in H.
  - destruct (server.phase w); [done | discriminate | discriminate].
  - inversion H; subst; clear H. cbn.
    repeat split; auto; intros; apply or_else_is_Some; eauto.
  - unfold server.unit_return in H. case_decide; [|discriminate]. cbn in H.
    unfold errgroup.done in H.
    destruct r as [e|]; [destruct (errgroup.err (server.group w)) as [e0|] eqn:He|];
      inversion H; subst; clear H; cbn.
    + repeat split; auto.
    + repeat split; auto; intros; apply or_else_Some_r.
    + repeat split; auto.
  - apply Run_wait_Some in H as (Hp & Hr & ->). cbn.
    repeat split; auto; intros; apply or_else_Some_r.
  - unfold server.watch in H.
    destruct (server.watcher w) eqn:Hwa; try discriminate.
    destruct (server.grp (server.ctxs w)) eqn:Hg; [|discriminate].
    inversion H; subst; clear H. cbn.
    match goal with |- context [server.close_listener ?x] =>
      destruct (close_listener_frame x) as (-> & -> & -> & _);
      destruct (close_listener_trace x) as (_ & -> & _) end.
    cbn. rewrite Hg. repeat split; auto.
  - inversion H; subst; clear H.
    destruct (Shutdown_frame sel w) as (-> & -> & -> & _).
    destruct (Shutdown_grp_closed sel w) as (Hg & Hl).
    repeat split; eauto.
  - destruct (server.pending w); [discriminate|]. inversion H; subst; clear H. cbn.
    destruct (Shutdown_bg_frame w) as (-> & -> & -> & -> & _).
    destruct (Shutdown_bg_trace w) as (_ & -> & _).
    repeat split; auto.
Qed.

Lemma exec_started_inv env evs : forall w w',
  server.exec env evs w = Some w' -> started_inv w -> started_inv w'.
Proof.
  induction evs as [|ev evs IH]; intros w w' Hex Hinv.
  - inversion Hex; by subst.
  - simpl in Hex. destruct (server.step env ev w) as [w1|] eqn:Hstep; [|discriminate].
    eauto using step_started_inv.
Qed.

Lemma Run_start_started_inv env w :
  init_fails env w = false -> started_inv (server.Run_start env w).
Proof.
  intros Hok. unfold started_inv.
  rewrite Run_start_phase, Hok, Run_start_err, Run_start_watcher.
  repeat split; try discriminate. done.
Qed.

(** X5. The first failure takes the server down. In every execution of a
    [Run] that got to start its units, as soon as a unit has returned a
    non-nil error, or [Run] itself has returned, the context of the group
    is done; and then the watcher goroutine of [Run] has closed the root
    listener already, or it is ready to run and closes it when it does.
    So [Run] never leaves the listener open for good. *)
Theorem unit_failure_or_return_closes_listener
    (env : Env) (w0 w : server.World) (evs : list server.Event) :
  server.phase w0 = server.Created ->
  init_fails env w0 = false ->
  server.exec env (server.EvRun :: evs) w0 = Some w ->
  (server.first_error (server.unit_returns evs) <> None \/
   exists r, server.phase w = server.Returned r) ->
  is_Some (server.grp (server.ctxs w)) /\
  ((server.watcher w = server.Fired /\
    server.closed (server.Listener_ (server.srv w)) = true) \/
   (server.watcher w = server.Armed /\
    exists w', server.step env server.EvWatcher w = Some w' /\
      server.watcher w' = server.Fired /\
      server.closed (server.Listener_ (server.srv w')) = true)).
Proof.
  intros Hc Hok Hex Hcause. simpl in Hex. rewrite Hc in Hex.
  pose proof (exec_started_inv _ _ _ _ Hex (Run_start_started_inv env w0 Hok))
    as (_ & Herr & Hret & Hw & Hf).
  pose proof (Run_start_phase env w0) as Hp. rewrite Hok in Hp.
  destruct (exec_run_inv env evs _ _ (errgroup.running (server.group (server.Run_start env w0))) []
              Hex) as (_ & H2 & _); auto using Run_start_err.
  simpl in H2.
  assert (is_Some (server.grp (server.ctxs w))) as Hdone.
  { destruct Hcause as [Hfail | [r Hr]]; [apply Herr; congruence | eauto]. }
  split; [exact Hdone|].
  destruct (server.watcher w) eqn:Hwa; [done | right | left; auto].
  split; [reflexivity|].
  unfold server.step, server.watch. rewrite Hwa.
  destruct Hdone as [e ->]. eexists. split; [reflexivity|]. cbn.
  match goal with |- context [server.close_listener ?x] =>
    destruct (close_listener_trace x) as (_ & -> & _) end.
  auto.
Qed.

Lemma unit_failure_or_return_closes_listener_witness :
  server.phase (server.fresh ping_server) = server.Created /\
  init_fails (mode "grpc") (server.fresh ping_server) = false /\
  (server.first_error
     (server.unit_returns [server.EvUnitReturn UGrpc (Some (Errorf "serve failed"))])
   <> None) /\
  exists w,
    server.exec (mode "grpc")
      [server.EvRun; server.EvUnitReturn UGrpc (Some (Errorf "serve failed"))]
      (server.fresh ping_server) = Some w /\
    is_Some (server.grp (server.ctxs w)).
Proof.
  split; [reflexivity|]. split; [reflexivity|]. split; [discriminate|].
  eexists. split; [vm_compute; reflexivity|].
  match goal with |- is_Some (server.grp (server.ctxs ?w)) =>
    assert (server.exec (mode "grpc")
              [server.EvRun; server.EvUnitReturn UGrpc (Some (Errorf "serve failed"))]
              (server.fresh ping_server) = Some w) as Hex by (vm_compute; reflexivity);
    apply (unit_failure_or_return_closes_listener (mode "grpc") (server.fresh ping_server) w
             [server.EvUnitReturn UGrpc (Some (Errorf "serve failed"))] eq_refl eq_refl Hex)
  end.
  left. discriminate.
Defined.

(** ** [Shutdown] before [Run] *)





(** ** The older [Run] against the newer one *)

(** X7. In every mode the older [Run] gives the multiplexer the same
    rules, in the same order, and starts the same Server Tasks as the
    newer [Run] does on a server whose service is not nil; and the older
    [Run] never takes its [log.Fatal] branch, because the older
    [http.New] never returns an error. *)
Theorem Run_old_same_rules_and_tasks
    (env : Env) (w : server.World) (s svc : Service) (version : string) :
  server.Service_ (server.srv w) = Some s ->
  exists m g,
    server.Run_old env env svc version = Some (m, g) /\
    m = server.mux (server.Run_start env w) /\
    tasks g = tasks (server.group (server.Run_start env w)).
Proof.
  intros Hs. rewrite Run_start_mux, Run_start_tasks, Hs.
  unfold server.Run_old, protocol, tasks. cbn.
  repeat case_decide; try mode_clash; eexists _, _; repeat split.
Qed.

Lemma Run_old_same_rules_and_tasks_witness :
  server.Service_ (server.srv (server.fresh ping_server)) = Some ping_service /\
  exists m g,
    server.Run_old no_mode no_mode ping_service "v1" = Some (m, g) /\
    m = server.mux (server.Run_start no_mode (server.fresh ping_server)) /\
    tasks g = [UGrpc; UHttp].
Proof.
  split; [reflexivity|].
  destruct (Run_old_same_rules_and_tasks no_mode (server.fresh ping_server)
              ping_service ping_service "v1" eq_refl) as (m & g & H1 & H2 & H3).
  exists m, g. split; [exact H1|]. split; [exact H2|].
  rewrite H3. reflexivity.
Defined.

(** X8. The older [Run] starts the serve unit of the multiplexer inside
    its HTTP branch: once in every mode but [grpc], and never in the
    mode [grpc], where the gRPC server is started on a listener that no
    accept loop feeds. The newer [Run] starts it once in every mode. *)
Theorem Run_old_serves_unless_grpc (env : Env) (svc : Service) (version : string) :
  exists m g,
    server.Run_old env env svc version = Some (m, g) /\
    spawned_times UCmux g = (if decide (protocol env = "grpc") then 0 else 1) /\
    (protocol env = "grpc" -> errgroup.running g = [UGrpc]).
Proof.
  unfold server.Run_old, protocol, spawned_times. cbn.
  repeat case_decide; try mode_clash; eexists _, _; repeat split; try done.
Qed.


(** ** Strings *)

Lemma sapp_nil_l s : EmptyString +:+ s = s.
Proof. reflexivity. Qed.

Lemma sapp_cons c a b : String c a +:+ b = String c (a +:+ b).
Proof. reflexivity. Qed.

Lemma sapp_nil_r s : s +:+ EmptyString = s.
Proof. induction s as [|c s IH]; [reflexivity|]. by rewrite sapp_cons, IH. Qed.

Lemma sapp_assoc a b c : (a +:+ b) +:+ c = a +:+ (b +:+ c).
Proof. induction a as [|d a IH]; [reflexivity|]. by rewrite !sapp_cons, IH. Qed.

Lemma has_char_app c a b : has_char c (a +:+ b) = has_char c a || has_char c b.
Proof.
  induction a as [|d a IH]; [reflexivity|].
  rewrite sapp_cons. cbn [has_char]. by rewrite IH, orb_assoc.
Qed.

Lemma rev_app a b : strings.rev (a +:+ b) = strings.rev b +:+ strings.rev a.
Proof.
  induction a as [|c a IH]; [by rewrite sapp_nil_l, sapp_nil_r|].
  rewrite sapp_cons. cbn [strings.rev]. by rewrite IH, sapp_assoc.
Qed.

Lemma rev_rev s : strings.rev (strings.rev s) = s.
Proof.
  induction s as [|c s IH]; [reflexivity|].
  cbn [strings.rev]. by rewrite rev_app, IH.
Qed.

Lemma has_char_rev c s : has_char c (strings.rev s) = has_char c s.
Proof.
  induction s as [|d s IH]; [reflexivity|].
  cbn [strings.rev]. rewrite has_char_app, IH. cbn [has_char].
  by rewrite orb_false_r, orb_comm.
Qed.

(** *** Splitting at a separator of one byte *)

Lemma HasPrefix_one c s d :
  strings.HasPrefix (String c s) (String d EmptyString) = bool_decide (c = d).
Proof. cbn. by destruct s, (bool_decide (c = d)). Qed.

Lemma genSplit_no_sep d n cur s :
  has_char d s = false ->
  strings.genSplit (String d EmptyString) n 0 cur s = [cur +:+ s].
Proof.
  revert cur n. induction s as [|c s IH]; intros cur n H; cbn [strings.genSplit].
  - by rewrite sapp_nil_r.
  - cbn [has_char] in H. apply orb_false_iff in H as [Hc Hs].
    rewrite HasPrefix_one, Hc.
    destruct n as [[|n]|]; [reflexivity| |];
      rewrite (IH _ _ Hs), sapp_assoc; reflexivity.
Qed.

Lemma genSplit_cut d n cur a b :
  has_char d a = false ->
  strings.genSplit (String d EmptyString) n 0 cur (a +:+ String d b) =
  match n with
  | Some O => [cur +:+ a +:+ String d b]
  | _ => (cur +:+ a) ::
         strings.genSplit (String d EmptyString) (option_map Nat.pred n) 0 EmptyString b
  end.
Proof.
  revert cur. induction a as [|c a IH]; intros cur H.
  - rewrite sapp_nil_l. cbn [strings.genSplit].
    rewrite HasPrefix_one, bool_decide_eq_true_2 by done.
    rewrite sapp_nil_r. by destruct n as [[|n]|].
  - cbn [has_char] in H. apply orb_false_iff in H as [Hc Hs].
    rewrite sapp_cons. cbn [strings.genSplit]. rewrite HasPrefix_one, Hc.
    destruct n as [[|n]|]; [reflexivity| |];
      rewrite (IH _ Hs), !sapp_assoc; reflexivity.
Qed.

(** Cutting once: the first piece has no separator in it, and the two
    pieces with the separator between them are the string. *)
Lemma genSplit_once d cur s x y :
  strings.genSplit (String d EmptyString) (Some 1) 0 cur s = [x; y] ->
  exists a, x = cur +:+ a /\ has_char d a = false /\ s = a +:+ String d y.
Proof.
  revert cur. induction s as [|c s IH]; intros cur H; cbn [strings.genSplit] in H.
  - discriminate.
  - rewrite HasPrefix_one in H. case_bool_decide as Hc.
    + subst c. cbn [option_map Nat.pred] in H. exists EmptyString. rewrite sapp_nil_r.
      destruct s; cbn in H; inversion H; auto.
    + apply IH in H as (a & -> & Ha & ->).
      exists (String c a). rewrite sapp_assoc. cbn [has_char].
      rewrite bool_decide_eq_false_2 by done. auto.
Qed.

Lemma Split_Join d ss :
  ss <> [] ->
  Forall (fun s => has_char d s = false) ss ->
  strings.Split (strings.Join ss (String d EmptyString)) (String d EmptyString) = ss.
Proof.
  unfold strings.Split. intros Hne Hall.
  induction Hall as [|s ss Hs Hall IH]; [done|].
  destruct ss as [|s' ss].
  - cbn [strings.Join]. by rewrite genSplit_no_sep.
  - change (strings.Join (s :: s' :: ss) (String d EmptyString))
      with (s +:+ String d (strings.Join (s' :: ss) (String d EmptyString))).
    rewrite genSplit_cut by done. cbn [option_map].
    f_equal. by apply IH.
Qed.

(** *** Trimming *)

Lemma space2_ascii b1 b2 : (b1 <? 128)%nat = true -> strings.space2 b1 b2 = false.
Proof.
  intros H%Nat.ltb_lt. unfold strings.space2.
  destruct (Nat.eqb_spec b1 194); [lia | reflexivity].
Qed.

Lemma space2_ascii_r b1 b2 : (b2 <? 128)%nat = true -> strings.space2 b1 b2 = false.
Proof.
  intros H%Nat.ltb_lt. unfold strings.space2.
  destruct (Nat.eqb_spec b2 133), (Nat.eqb_spec b2 160);
    try lia; try by rewrite andb_false_r.
Qed.

Lemma space3_ascii b1 b2 b3 : (b1 <? 128)%nat = true -> strings.space3 b1 b2 b3 = false.
Proof.
  intros H%Nat.ltb_lt. unfold strings.space3.
  destruct (Nat.eqb_spec b1 225), (Nat.eqb_spec b1 226), (Nat.eqb_spec b1 227);
    try lia; try reflexivity.
Qed.

Lemma space3_ascii_r b1 b2 b3 : (b3 <? 128)%nat = true -> strings.space3 b1 b2 b3 = false.
Proof.
  intros H%Nat.ltb_lt. unfold strings.space3.
  destruct (Nat.eqb_spec b3 128), (Nat.eqb_spec b3 168), (Nat.eqb_spec b3 169),
    (Nat.eqb_spec b3 175), (Nat.eqb_spec b3 159), (Nat.leb_spec 128 b3);
    try lia; try by rewrite ?andb_false_r.
Qed.

Lemma space_width_solid s : starts_solid s = true -> strings.space_width s = 0.
Proof.
  destruct s as [|c1 s]; [discriminate|]. cbn [starts_solid].
  intros [Ha Hs%negb_true_iff]%andb_true_iff.
  unfold strings.space_width. rewrite Hs.
  destruct s as [|c2 [|c3 s]]; rewrite ?space2_ascii, ?space3_ascii by done; reflexivity.
Qed.

Lemma space_width_rev_solid s : starts_solid s = true -> strings.space_width_rev s = 0.
Proof.
  destruct s as [|c1 s]; [discriminate|]. cbn [starts_solid].
  intros [Ha Hs%negb_true_iff]%andb_true_iff.
  unfold strings.space_width_rev. rewrite Hs.
  destruct s as [|c2 [|c3 s]]; rewrite ?space2_ascii_r, ?space3_ascii_r by done; reflexivity.
Qed.

Lemma trim_go_stop width s : width s = 0 -> strings.trim_go width 0 s = s.
Proof. destruct s; cbn; [reflexivity|]. by intros ->. Qed.

(** A string that starts and ends with a solid byte is not trimmed. *)
Lemma TrimSpace_solid s :
  starts_solid s = true -> starts_solid (strings.rev s) = true ->
  strings.TrimSpace s = s.
Proof.
  intros H1 H2. unfold strings.TrimSpace.
  rewrite (trim_go_stop _ s) by by apply space_width_solid.
  rewrite trim_go_stop by by apply space_width_rev_solid.
  apply rev_rev.
Qed.

Lemma TrimSpace_empty : strings.TrimSpace EmptyString = EmptyString.
Proof. reflexivity. Qed.

(** What is left after trimming is a piece of the string. *)
Lemma trim_go_suffix width s : forall skip,
  exists pre, s = pre +:+ strings.trim_go width skip s.
Proof.
  induction s as [|c s IH]; intros skip; [by exists EmptyString|].
  cbn [strings.trim_go]. destruct skip as [|k].
  - destruct (width (String c s)) as [|k']; [by exists EmptyString|].
    destruct (IH k') as [pre Hpre]. exists (String c pre).
    by rewrite sapp_cons, <- Hpre.
  - destruct (IH k) as [pre Hpre]. exists (String c pre).
    by rewrite sapp_cons, <- Hpre.
Qed.

Lemma has_char_TrimSpace c s :
  has_char c (strings.TrimSpace s) = true -> has_char c s = true.
Proof.
  unfold strings.TrimSpace. rewrite has_char_rev. intros H.
  destruct (trim_go_suffix strings.space_width s 0) as [pre1 H1].
  destruct (trim_go_suffix strings.space_width_rev
              (strings.rev (strings.trim_go strings.space_width 0 s)) 0) as [pre2 H2].
  rewrite H1, has_char_app, <- (has_char_rev c (strings.trim_go _ _ s)), H2, has_char_app, H.
  by rewrite !orb_true_r.
Qed.

(** *** Plain names and addresses *)

Lemma plain_byte_solid c s : plain_byte c = true -> starts_solid (String c s) = true.
Proof.
  unfold plain_byte. cbn [starts_solid].
  intros [[[-> ->]%andb_true_iff _]%andb_true_iff _]%andb_true_iff. reflexivity.
Qed.

Lemma all_plain_app a b : all_plain (a +:+ b) = all_plain a && all_plain b.
Proof.
  induction a as [|c a IH]; [reflexivity|].
  rewrite sapp_cons. cbn [all_plain]. by rewrite IH, andb_assoc.
Qed.

Lemma all_plain_rev s : all_plain (strings.rev s) = all_plain s.
Proof.
  induction s as [|c s IH]; [reflexivity|].
  cbn [strings.rev all_plain]. rewrite all_plain_app, IH. cbn [all_plain].
  by rewrite andb_true_r, andb_comm.
Qed.

Lemma all_plain_no_sep s :
  all_plain s = true -> has_char "@"%char s = false /\ has_char ","%char s = false.
Proof.
  induction s as [|c s IH]; [done|]. cbn [all_plain has_char].
  intros [Hc Hs]%andb_true_iff. destruct (IH Hs) as [-> ->].
  unfold plain_byte in Hc.
  apply andb_true_iff in Hc as [[_ H1%negb_true_iff]%andb_true_iff H2%negb_true_iff].
  by rewrite H1, H2.
Qed.

Lemma plain_starts_solid s t : plain s = true -> starts_solid (s +:+ t) = true.
Proof.
  unfold plain. intros [Hne Hall]%andb_true_iff.
  destruct s as [|c s]; [discriminate|].
  cbn [all_plain] in Hall. apply andb_true_iff in Hall as [Hc _].
  rewrite sapp_cons. by apply plain_byte_solid.
Qed.

Lemma plain_rev s : plain s = true -> plain (strings.rev s) = true.
Proof.
  unfold plain. intros [Hne Hall]%andb_true_iff.
  rewrite all_plain_rev, Hall, andb_true_r.
  destruct s as [|c s]; [discriminate|]. cbn [strings.rev].
  apply negb_true_iff, bool_decide_eq_false. by destruct (strings.rev s).
Qed.

Lemma TrimSpace_plain s : plain s = true -> strings.TrimSpace s = s.
Proof.
  intros H. apply TrimSpace_solid.
  - rewrite <- (sapp_nil_r s). by apply plain_starts_solid.
  - rewrite <- (sapp_nil_r (strings.rev s)). by apply plain_starts_solid, plain_rev.
Qed.

(** ** [service.New]: the entries of SERVICE_DEPS *)

Lemma SplitN_at_first (n a : string) :
  has_char "@"%char n = false ->
  strings.SplitN (n +:+ "@" +:+ a) "@" 2 = [n; a].
Proof.
  intros Hn. unfold strings.SplitN.
  change (n +:+ "@" +:+ a) with (n +:+ String "@"%char a).
  rewrite genSplit_cut by done. cbn [option_map Nat.pred]. rewrite sapp_nil_l.
  by destruct a.
Qed.

Lemma parse_dep_plain (n a : string) :
  plain n = true -> plain a = true ->
  service.parse_dep (n +:+ "@" +:+ a) = Some (n, a).
Proof.
  intros Hn Ha. unfold service.parse_dep.
  assert (strings.TrimSpace (n +:+ "@" +:+ a) = n +:+ "@" +:+ a) as ->.
  { apply TrimSpace_solid; [by apply plain_starts_solid|].
    change (n +:+ "@" +:+ a) with (n +:+ String "@"%char a).
    rewrite rev_app. cbn [strings.rev]. rewrite !sapp_assoc.
    by apply plain_starts_solid, plain_rev. }
  assert (has_char "@"%char n = false) as Hat.
  { apply all_plain_no_sep. unfold plain in Hn. by apply andb_true_iff in Hn as [_ ?]. }
  rewrite SplitN_at_first by done.
  rewrite !TrimSpace_plain by done.
  assert (n <> EmptyString /\ a <> EmptyString) as [Hn0 Ha0].
  { unfold plain in Hn, Ha.
    apply andb_true_iff in Hn as [Hn%negb_true_iff%bool_decide_eq_false _].
    apply andb_true_iff in Ha as [Ha%negb_true_iff%bool_decide_eq_false _]. done. }
  rewrite decide_False by (by destruct n).
  rewrite decide_False by tauto. reflexivity.
Qed.

(** X9. An entry of SERVICE_DEPS that the newer [New] uses has the form
    [name@addr] after trimming: its name is not empty and holds no [@],
    its address is not empty, the name is what stands before the first
    [@] and the address all that follows it (further [@] included),
    each trimmed. An entry without [@], or with an empty name or
    address, is passed over. *)
Theorem parse_dep_sound (dep name addr : string) :
  service.parse_dep dep = Some (name, addr) ->
  name <> EmptyString /\ addr <> EmptyString /\
  has_char "@"%char name = false /\
  exists p0 p1,
    strings.TrimSpace dep = p0 +:+ "@" +:+ p1 /\
    has_char "@"%char p0 = false /\
    name = strings.TrimSpace p0 /\ addr = strings.TrimSpace p1.
Proof.
  unfold service.parse_dep. case_decide as Hd; [discriminate|].
  destruct (strings.SplitN (strings.TrimSpace dep) "@" 2) as [|p0 [|p1 [|? ?]]] eqn:Hs;
    try discriminate.
  case_decide as Hne; [discriminate|]. intros H. inversion H; subst. clear H.
  unfold strings.SplitN in Hs. apply genSplit_once in Hs as (a & -> & Ha & Hdep).
  rewrite sapp_nil_l in *.
  split; [tauto|]. split; [tauto|]. split.
  - destruct (has_char "@"%char (strings.TrimSpace a)) eqn:Hc; [|reflexivity].
    apply has_char_TrimSpace in Hc. congruence.
  - exists a, p1. auto.
Qed.

Lemma parse_dep_sound_witness :
  service.parse_dep " users @ localhost:5002 " = Some ("users", "localhost:5002") /\
  has_char "@"%char "users" = false.
Proof.
  split; [reflexivity|].
  apply (parse_dep_sound " users @ localhost:5002 " "users" "localhost:5002" eq_refl).
Defined.

Lemma omap_step {A B} (f : A -> option B) (x : A) (l : list A) :
  omap f (x :: l) = match f x with Some y => y :: omap f l | None => omap f l end.
Proof. reflexivity. Qed.

Lemma encode_dep_no_comma d :
  plain d.1 = true -> plain d.2 = true -> has_char ","%char (encode_dep d) = false.
Proof.
  unfold encode_dep, plain. intros [_ H1]%andb_true_iff [_ H2]%andb_true_iff.
  rewrite !has_char_app.
  destruct (all_plain_no_sep _ H1) as [_ ->], (all_plain_no_sep _ H2) as [_ ->].
  reflexivity.
Qed.

(** X10. Writing and reading SERVICE_DEPS. A list of dependencies whose
    names and addresses are plain (not empty, of ASCII bytes other than
    white space, [@] and the comma), written as [name@addr] entries
    joined by commas, is read back by the newer [New] as that list, in
    that order; the empty list is written as the empty value and read
    back as no dependency. *)
Theorem SERVICE_DEPS_round_trip (deps : list (string * string)) :
  Forall (fun d => plain d.1 = true /\ plain d.2 = true) deps ->
  omap service.parse_dep (strings.Split (encode_deps deps) ",") = deps.
Proof.
  intros Hall. destruct deps as [|d deps]; [reflexivity|].
  unfold encode_deps.
  rewrite (Split_Join ","%char).
  - induction Hall as [|[n a] ds [Hn Ha] Hds IH]; [reflexivity|].
    cbn [map]. rewrite omap_step. unfold encode_dep at 1. cbn [fst snd] in *.
    by rewrite parse_dep_plain, IH.
  - discriminate.
  - apply Forall_map. eapply Forall_impl; [exact Hall|].
    intros d' [H1 H2]. by apply encode_dep_no_comma.
Qed.

Lemma SERVICE_DEPS_round_trip_witness :
  Forall (fun d => plain d.1 = true /\ plain d.2 = true)
    [("auth", "localhost:5001"); ("users", "localhost:5002")] /\
  encode_deps [("auth", "localhost:5001"); ("users", "localhost:5002")]
    = "auth@localhost:5001,users@localhost:5002" /\
  omap service.parse_dep (strings.Split "auth@localhost:5001,users@localhost:5002" ",")
    = [("auth", "localhost:5001"); ("users", "localhost:5002")].
Proof.
  assert (Forall (fun d => plain d.1 = true /\ plain d.2 = true)
            [("auth", "localhost:5001"); ("users", "localhost:5002")]) as H.
  { repeat constructor. }
  split; [exact H|]. split; [reflexivity|].
  apply (SERVICE_DEPS_round_trip _ H).
Defined.

(** ** [service.New]: dialling *)

Section Connect.

Context {DB ClientConn Connection Credentials : Type}.
Variable ext : @service.Externals DB ClientConn Connection Credentials.
Variable opts : list (@service.DialOption Credentials).

Lemma connect_all_ok deps : forall sv lg dl,
  Forall (fun d => dial_ok ext opts d = true) (omap service.parse_dep deps) ->
  service.connect ext opts deps sv lg dl =
  (None,
   foldl (keep ext opts) sv (omap service.parse_dep deps),
   lg ++ map dial_line (omap service.parse_dep deps),
   dl ++ map (dial_call opts) (omap service.parse_dep deps)).
Proof.
  induction deps as [|dep deps IH]; intros sv lg dl Hall.
  - cbn. by rewrite !app_nil_r.
  - rewrite omap_step in *. cbn [service.connect].
    destruct (service.parse_dep dep) as [[name addr]|]; [|by apply IH].
    apply Forall_cons in Hall as [Hok Hall].
    unfold dial_ok in Hok. cbn [fst snd] in Hok.
    cbn [foldl map]. unfold keep at 2. cbn [fst snd].
    destruct (service.dialGRPC ext addr opts) as [[conn|] [err|]]; try discriminate.
    rewrite IH by done. by rewrite <- !app_assoc.
Qed.

Lemma connect_first_failure deps : forall sv lg dl good bad rest,
  omap service.parse_dep deps = good ++ bad :: rest ->
  Forall (fun d => dial_ok ext opts d = true) good ->
  dial_ok ext opts bad = false ->
  service.connect ext opts deps sv lg dl =
  (Some (dial_error ext opts bad),
   foldl (keep ext opts) sv good,
   lg ++ map dial_line good,
   dl ++ map (dial_call opts) (good ++ [bad])).
Proof.
  induction deps as [|dep deps IH]; intros sv lg dl good bad rest Heq Hgood Hbad.
  - by destruct good.
  - rewrite omap_step in Heq. cbn [service.connect].
    destruct (service.parse_dep dep) as [[name addr]|]; [|by eapply IH].
    destruct good as [|g good].
    + cbn [app] in Heq. inversion Heq; subst. clear Heq.
      unfold dial_ok in Hbad. unfold dial_error. cbn [fst snd] in *.
      destruct (service.dialGRPC ext addr opts) as [[conn|] [err|]]; try discriminate;
        cbn; by rewrite ?app_nil_r.
    + cbn [app] in Heq. inversion Heq; subst. clear Heq.
      apply Forall_cons in Hgood as [Hok Hgood].
      unfold dial_ok in Hok. cbn [fst snd] in Hok.
      cbn [foldl map app]. unfold keep at 2. cbn [fst snd].
      destruct (service.dialGRPC ext addr opts) as [[conn|] [err|]]; try discriminate.
      rewrite (IH _ _ _ good bad rest) by done. by rewrite <- !app_assoc.
Qed.

End Connect.

Lemma foldl_keep_lookup {DB ClientConn Connection Credentials : Type}
    (ext : @service.Externals DB ClientConn Connection Credentials)
    (opts : list (@service.DialOption Credentials)) (ds : list (string * string))
    (name : string) :
  Forall (fun d => dial_ok ext opts d = true) ds ->
  foldl (keep ext opts) ∅ ds !! name =
  last (List.filter (fun d => bool_decide (d.1 = name)) ds)
    ≫= (fun d => (service.dialGRPC ext d.2 opts).1).
Proof.
  induction ds as [|d ds IH] using rev_ind; intros Hall; [reflexivity|].
  apply Forall_app in Hall as [Hds Hd%Forall_inv].
  rewrite foldl_app, List.filter_app. cbn [foldl List.filter].
  unfold keep at 1. unfold dial_ok in Hd.
  destruct (service.dialGRPC ext d.2 opts) as [[conn|] [err|]] eqn:Hdial; try discriminate.
  case_bool_decide as Hname.
  - rewrite last_snoc. cbn. rewrite Hdial. cbn. subst name. apply lookup_insert_eq.
  - rewrite app_nil_r, lookup_insert_ne by done. by apply IH.
Qed.

(** X11. When the logger and the database are there and every dial gives
    a connection, the newer [New] returns a service and no error: its
    port is PORT, or 4000 when PORT is not set or empty, it has no HTTP
    handler yet, and it holds one connection for every name among the
    well-formed entries of SERVICE_DEPS; every well-formed entry is
    dialled once, in the order of the list, and where a name comes more
    than once the connection of its last entry is the one kept. *)
Theorem service_New_connects_all {DB ClientConn Connection Credentials : Type}
    (ext : @service.Externals DB ClientConn Connection Credentials)
    (env : Env) (serviceOpts : list (@service.ServiceOption Credentials))
    (db : option DB) (name : string) :
  service.logs_New ext (Getenv env "SERVICE") (Getenv env "VERSION")
    (negb (bool_decide (Getenv env "IS_TERMINAL" = "true"))) = (true, None) ->
  service.connectPostgres ext (service.GetURIFromEnv ext env) = (db, None) ->
  Forall (fun d => dial_ok ext (service.grpcOptions serviceOpts) d = true) (parsed_deps env) ->
  exists conns,
    service.outcome (service.New ext env serviceOpts) =
      service.Return (Some (service.mkBuilt (mkService (service.port_of env) []) db conns))
        None /\
    service.dialled (service.New ext env serviceOpts) =
      map (dial_call (service.grpcOptions serviceOpts)) (parsed_deps env) /\
    conns !! name =
      last (List.filter (fun d => bool_decide (d.1 = name)) (parsed_deps env))
        ≫= (fun d => (service.dialGRPC ext d.2 (service.grpcOptions serviceOpts)).1).
Proof.
  intros Hlog Hdb Hall. unfold service.New. rewrite Hlog, Hdb. cbn [negb].
  exists (foldl (keep ext (service.grpcOptions serviceOpts)) ∅ (parsed_deps env)).
  rewrite <- (foldl_keep_lookup ext _ _ name Hall).
  unfold parsed_deps in *.
  destruct (decide (Getenv env "SERVICE_DEPS" = EmptyString)) as [Hraw|Hraw].
  - rewrite Hraw. cbn. auto.
  - rewrite connect_all_ok by done. cbn. auto.
Qed.

Lemma service_New_connects_all_witness :
  Forall (fun d => dial_ok test_externals (service.grpcOptions []) d = true)
    (parsed_deps (deps_env "auth@a:1, users@u:2 ,auth@a:3")) /\
  exists conns,
    service.outcome (service.New test_externals (deps_env "auth@a:1, users@u:2 ,auth@a:3") []) =
      service.Return (Some (service.mkBuilt (mkService "8080" []) (Some tt) conns)) None /\
    conns !! "auth" = Some "conn to a:3".
Proof.
  assert (Forall (fun d => dial_ok test_externals (service.grpcOptions []) d = true)
            (parsed_deps (deps_env "auth@a:1, users@u:2 ,auth@a:3"))) as Hall.
  { vm_compute. repeat constructor. }
  split; [exact Hall|].
  destruct (service_New_connects_all test_externals (deps_env "auth@a:1, users@u:2 ,auth@a:3")
              [] (Some tt) "auth" eq_refl eq_refl Hall) as (conns & H1 & _ & H3).
  exists conns. split; [exact H1|]. rewrite H3. vm_compute. reflexivity.
Defined.

(** X12. When a dial fails, the newer [New] stops there: it returns no
    service and an error that names the entry (the error of the dial
    wrapped, or the nil connection reported), the entries before it have
    been dialled in order, the failing one last, and nothing after it is
    dialled. Entries that are not well-formed change nothing of this. *)
Theorem service_New_stops_at_failed_dial {DB ClientConn Connection Credentials : Type}
    (ext : @service.Externals DB ClientConn Connection Credentials)
    (env : Env) (serviceOpts : list (@service.ServiceOption Credentials))
    (db : option DB) (good rest : list (string * string)) (bad : string * string) :
  service.logs_New ext (Getenv env "SERVICE") (Getenv env "VERSION")
    (negb (bool_decide (Getenv env "IS_TERMINAL" = "true"))) = (true, None) ->
  service.connectPostgres ext (service.GetURIFromEnv ext env) = (db, None) ->
  parsed_deps env = good ++ bad :: rest ->
  Forall (fun d => dial_ok ext (service.grpcOptions serviceOpts) d = true) good ->
  dial_ok ext (service.grpcOptions serviceOpts) bad = false ->
  service.outcome (service.New ext env serviceOpts) =
    service.Return None (Some (dial_error ext (service.grpcOptions serviceOpts) bad)) /\
  service.dialled (service.New ext env serviceOpts) =
    map (dial_call (service.grpcOptions serviceOpts)) (good ++ [bad]).
Proof.
  intros Hlog Hdb Hparsed Hgood Hbad. unfold service.New. rewrite Hlog, Hdb. cbn [negb].
  unfold parsed_deps in Hparsed.
  destruct (decide (Getenv env "SERVICE_DEPS" = EmptyString)) as [Hraw|Hraw].
  - rewrite Hraw in Hparsed. by destruct good.
  - rewrite (connect_first_failure ext _ _ _ _ _ good bad rest) by done. cbn. auto.
Qed.

Lemma service_New_stops_at_failed_dial_witness :
  parsed_deps (deps_env "a@ok,b@bad,c@ok") = [("a", "ok")] ++ ("b", "bad") :: [("c", "ok")] /\
  service.outcome (service.New test_externals (deps_env "a@ok,b@bad,c@ok") []) =
    service.Return None (Some (Wrapf "failed to dial b" (Errorf "mock grpc dial failed"))) /\
  service.dialled (service.New test_externals (deps_env "a@ok,b@bad,c@ok") []) =
    [("ok", [service.WithTransportCredentials service.Insecure]);
     ("bad", [service.WithTransportCredentials service.Insecure])].
Proof.
  split; [vm_compute; reflexivity|].
  apply (service_New_stops_at_failed_dial test_externals (deps_env "a@ok,b@bad,c@ok") []
           (Some tt) [("a", "ok")] [("c", "ok")] ("b", "bad") eq_refl eq_refl).
  - vm_compute. reflexivity.
  - repeat constructor.
  - reflexivity.
Defined.

(** X13. How the newer [New] can end, whatever the libraries do. It
    returns a service exactly when it returns no error, never both and
    never neither; the service has the port of the environment and no
    HTTP handler; and no address is dialled unless the logger was made
    and the database connected: on [log.Fatalf], and on a database
    error, nothing has been dialled. *)
Theorem service_New_outcome {DB ClientConn Connection Credentials : Type}
    (ext : @service.Externals DB ClientConn Connection Credentials)
    (env : Env) (serviceOpts : list (@service.ServiceOption Credentials)) :
  match service.outcome (service.New ext env serviceOpts) with
  | service.Return (Some b) None =>
      service.base b = mkService (service.port_of env) [] /\
      service.connectPostgres ext (service.GetURIFromEnv ext env) = (service.DB_ b, None)
  | service.Return None (Some e) =>
      (exists cause,
         (service.connectPostgres ext (service.GetURIFromEnv ext env)).2 = Some cause /\
         e = Errorf ("failed to create db connection: " +:+ Error cause) /\
         service.dialled (service.New ext env serviceOpts) = []) \/
      (exists db,
         service.connectPostgres ext (service.GetURIFromEnv ext env) = (db, None) /\
         service.dialled (service.New ext env serviceOpts) <> [])
  | service.Return (Some _) (Some _) | service.Return None None => False
  | service.Fatal _ | service.NilReceiver =>
      service.dialled (service.New ext env serviceOpts) = []
  end.
Proof.
  unfold service.New.
  destruct (service.logs_New ext _ _ _) as [logger [lerr|]]; [reflexivity|].
  destruct (service.connectPostgres ext _) as [db [derr|]] eqn:Hdb; cbn.
  { left. exists derr. auto. }
  destruct logger; cbn; [|reflexivity].
  destruct (decide (Getenv env "SERVICE_DEPS" = EmptyString)) as [Hraw|Hraw]; [done|].
  set (deps := strings.Split _ _). set (opts := service.grpcOptions _).
  set (lg := [_]). clearbody deps lg. clear Hraw.
  assert (forall sv lg dl,
            match service.connect ext opts deps sv lg dl with
            | (Some _, _, _, dl') => dl' <> []
            | (None, _, _, _) => True
            end) as Hconnect.
  { induction deps as [|dep deps IH]; intros sv lg' dl; [done|].
    cbn [service.connect]. destruct (service.parse_dep dep) as [[n a]|]; [|apply IH].
    destruct (service.dialGRPC ext a opts) as [[conn|] [err|]];
      try (by destruct dl); apply IH. }
  specialize (Hconnect ∅ lg []).
  destruct (service.connect ext opts deps ∅ lg []) as [[[[e|] sv] lg'] dl]; cbn; [|done].
  right. eauto.
Qed.

(** ** [service.New]: the older and the newer one *)

Lemma Split_at_plain (n a : string) :
  plain n = true -> plain a = true ->
  strings.Split (n +:+ "@" +:+ a) "@" = [n; a].
Proof.
  unfold plain. intros [_ Hn]%andb_true_iff [_ Ha]%andb_true_iff.
  destruct (all_plain_no_sep _ Hn) as [Hn' _], (all_plain_no_sep _ Ha) as [Ha' _].
  unfold strings.Split.
  change (n +:+ "@" +:+ a) with (n +:+ String "@"%char a).
  rewrite genSplit_cut by done. cbn [option_map]. rewrite sapp_nil_l.
  by rewrite genSplit_no_sep, sapp_nil_l.
Qed.

Section Connect_old.

Context {DB ClientConn Connection Credentials : Type}.
Variable ext : @service.Externals DB ClientConn Connection Credentials.
Variable opts : list (@service.DialOption Credentials).

Lemma connect_old_plain ds : forall sv lg lg' dl,
  Forall (fun d => plain d.1 = true /\ plain d.2 = true) ds ->
  match service.connect_old ext opts (map encode_dep ds) sv lg dl,
        service.connect ext opts (map encode_dep ds) sv lg' dl with
  | (r, sv1, _, dl1), (e, sv2, _, dl2) =>
      dl1 = dl2 /\
      match r with
      | Some None => e = None /\ sv1 = sv2
      | Some (Some err) =>
          exists name, name ∈ ds.*1 /\ e = Some (Wrapf ("failed to dial " +:+ name) err)
      | None =>
          exists name, name ∈ ds.*1 /\
            e = Some (Errorf ("failed to dial " +:+ name +:+ ": got nil connection"))
      end
  end.
Proof.
  induction ds as [|[n a] ds IH]; intros sv lg lg' dl Hall; [done|].
  apply Forall_cons in Hall as [[Hn Ha] Hall]. cbn [fst snd] in Hn, Ha.
  cbn [map service.connect_old service.connect].
  change (encode_dep (n, a)) with (n +:+ "@" +:+ a).
  rewrite Split_at_plain, parse_dep_plain by done.
  destruct (service.dialGRPC ext a opts) as [[conn|] [err|]].
  - split; [done|]. exists n. split; [by left|done].
  - specialize (IH (<[n:=conn]> sv)
                  (lg ++ [mkLog LInfo "Connected to %s service: %s"
                            [AStr n; AStr (service.GetState ext conn)]])
                  (lg' ++ [mkLog LInfo "Connected to %s service" [AStr n]])
                  (dl ++ [(a, opts)]) Hall).
    destruct (service.connect_old _ _ _ _ _ _) as [[[r sv1] lg1] dl1].
    destruct (service.connect _ _ _ _ _ _) as [[[e sv2] lg2] dl2].
    destruct IH as [Hdl Hr]. split; [done|].
    destruct r as [[err|]|]; [| done |]; destruct Hr as (name & Hin & He);
      exists name; (split; [by right|done]).
  - split; [done|]. exists n. split; [by left|done].
  - split; [done|]. exists n. split; [by left|done].
Qed.

End Connect_old.

(** X14. The older and the newer [New] on a SERVICE_DEPS that lists plain
    names and addresses as [name@addr] entries joined by commas. Both
    dial the same addresses with the same options in the same order, and
    where the older one returns a service the newer one returns the same
    service. They differ on a failed dial only: the error that the older
    one returns as it is comes back from the newer one wrapped with the
    name of the entry, and the nil connection on which the older one
    calls a method is an error of the newer one. *)
Theorem service_New_old_and_new {DB ClientConn Connection Credentials : Type}
    (ext : @service.Externals DB ClientConn Connection Credentials)
    (env : Env) (serviceOpts : list (@service.ServiceOption Credentials))
    (deps : list (string * string)) :
  Forall (fun d => plain d.1 = true /\ plain d.2 = true) deps ->
  Getenv env "SERVICE_DEPS" = encode_deps deps ->
  service.dialled (service.New_old ext env serviceOpts) =
    service.dialled (service.New ext env serviceOpts) /\
  match service.outcome (service.New_old ext env serviceOpts) with
  | service.Return (Some b) None =>
      service.outcome (service.New ext env serviceOpts) = service.Return (Some b) None
  | service.Return None (Some e) =>
      service.outcome (service.New ext env serviceOpts) = service.Return None (Some e) \/
      exists name, name ∈ deps.*1 /\
        service.outcome (service.New ext env serviceOpts) =
          service.Return None (Some (Wrapf ("failed to dial " +:+ name) e))
  | service.NilReceiver =>
      service.outcome (service.New ext env serviceOpts) = service.NilReceiver \/
      exists name, name ∈ deps.*1 /\
        service.outcome (service.New ext env serviceOpts) =
          service.Return None
            (Some (Errorf ("failed to dial " +:+ name +:+ ": got nil connection")))
  | service.Fatal msg =>
      service.outcome (service.New ext env serviceOpts) = service.Fatal msg
  | service.Return (Some _) (Some _) | service.Return None None => False
  end.
Proof.
  intros Hall Hraw. unfold service.New_old, service.New.
  destruct (service.logs_New ext _ _ _) as [logger [lerr|]]; [done|].
  destruct (service.connectPostgres ext _) as [db [derr|]]; [cbn; auto|].
  destruct logger; cbn [negb]; [|cbn; auto].
  rewrite Hraw.
  destruct deps as [|d deps].
  { cbn. auto. }
  destruct (decide (encode_deps (d :: deps) = EmptyString)) as [He|_].
  { exfalso. destruct d as [[|c n] a]; [|by destruct deps].
    apply Forall_inv in Hall as [Hn _]. discriminate Hn. }
  unfold encode_deps. rewrite (Split_Join ","%char).
  2: discriminate.
  2: { apply Forall_map. eapply Forall_impl; [exact Hall|].
       intros d' [H1 H2]. by apply encode_dep_no_comma. }
  pose proof (connect_old_plain ext (service.grpcOptions serviceOpts) (d :: deps) ∅
    [mkLog LInfo ("Connected to database " +:+
                   service.HostString ext (service.GetURIFromEnv ext env)) []]
    [mkLog LInfo "Connected to database %s"
       [AStr (service.HostString ext (service.GetURIFromEnv ext env))]] [] Hall) as H.
  destruct (service.connect_old _ _ _ _ _ _) as [[[r sv1] lg1] dl1].
  destruct (service.connect _ _ _ _ _ _) as [[[e sv2] lg2] dl2].
  destruct H as [-> Hr].
  destruct r as [[err|]|].
  - destruct Hr as (name & Hin & ->). cbn. split; [done|]. right. eauto.
  - destruct Hr as [-> ->]. cbn. auto.
  - destruct Hr as (name & Hin & ->). cbn. split; [done|]. right. eauto.
Qed.

Lemma service_New_old_and_new_witness :
  Forall (fun d => plain d.1 = true /\ plain d.2 = true) [("a", "ok"); ("b", "bad")] /\
  Getenv (deps_env "a@ok,b@bad") "SERVICE_DEPS" = encode_deps [("a", "ok"); ("b", "bad")] /\
  service.dialled (service.New_old test_externals (deps_env "a@ok,b@bad") []) =
    service.dialled (service.New test_externals (deps_env "a@ok,b@bad") []) /\
  service.outcome (service.New_old test_externals (deps_env "a@ok,b@bad") []) =
    service.Return None (Some (Errorf "mock grpc dial failed")).
Proof.
  assert (Forall (fun d => plain d.1 = true /\ plain d.2 = true) [("a", "ok"); ("b", "bad")])
    as Hall by repeat constructor.
  assert (Getenv (deps_env "a@ok,b@bad") "SERVICE_DEPS" = encode_deps [("a", "ok"); ("b", "bad")])
    as Hraw by (vm_compute; reflexivity).
  split; [exact Hall|]. split; [exact Hraw|]. split.
  - exact (proj1 (service_New_old_and_new test_externals (deps_env "a@ok,b@bad") []
                    [("a", "ok"); ("b", "bad")] Hall Hraw)).
  - vm_compute. reflexivity.
Defined.

(** ** [pkg/firebase]: the middleware *)

(** The tests of the package, on the embedding. *)
Example TestFirebaseAuthMiddleware_Success :
  let r := firebase.FirebaseAuthMiddleware (fun s => s) (test_firebase (Some test_verifier))
             (test_request "Bearer valid-token") in
  firebase.ending r = firebase.Next /\
  firebase.GetFirebaseUser (firebase.ctx r) = Some "abc123".
Proof. vm_compute. auto. Qed.

Example TestFirebaseAuthMiddleware_MissingHeader :
  firebase.ending (firebase.FirebaseAuthMiddleware (fun s => s) (test_firebase None)
                     (test_request EmptyString)) =
  firebase.Abort (service.mkResponse 401 [("error", "missing Authorization header")]).
Proof. reflexivity. Qed.

Example TestFirebaseAuthMiddleware_InvalidFormat :
  firebase.ending (firebase.FirebaseAuthMiddleware (fun s => s) (test_firebase None)
                     (test_request "Token invalid-format")) =
  firebase.Abort (service.mkResponse 401 [("error", "invalid Authorization format")]).
Proof. reflexivity. Qed.

Example TestFirebaseAuthMiddleware_VerifyFailure :
  firebase.ending (firebase.FirebaseAuthMiddleware (fun s => s) (test_firebase (Some test_verifier))
                     (test_request "Bearer bad-token")) =
  firebase.Abort (service.mkResponse 401 [("error", "unauthorized")]).
Proof. reflexivity. Qed.

Lemma SplitN_once d s p0 p1 :
  strings.SplitN s (String d EmptyString) 2 = [p0; p1] <->
  s = p0 +:+ String d p1 /\ has_char d p0 = false.
Proof.
  unfold strings.SplitN. split.
  - intros (a & -> & Ha & ->)%genSplit_once. by rewrite sapp_nil_l.
  - intros [-> Hp0]. rewrite genSplit_cut by done. cbn [option_map Nat.pred].
    rewrite sapp_nil_l. by destruct p1.
Qed.

Lemma middleware_cases {Token App Other : Type} (lower : string -> string)
    (fs : @firebase.FirebaseService Token App) (c : @firebase.Context Token Other) :
  (exists scheme token,
     bearer lower (firebase.Authorization c) scheme token /\
     firebase.FirebaseAuthMiddleware lower fs c =
       match firebase.VerifyToken fs token with
       | None => firebase.mkHandled firebase.Panic c [] []
       | Some ((_, Some err), lg) =>
           firebase.mkHandled (firebase.Abort (firebase.unauthorized "unauthorized")) c
             (lg ++ [mkLog LWarn "unauthorized request: %v" [AErr (Some err)]]) [token]
       | Some ((tok, None), lg) =>
           firebase.mkHandled firebase.Next
             (firebase.Set_ "firebaseUser" (firebase.VToken tok) c) lg [token]
       end) \/
  ((forall scheme token, ~ bearer lower (firebase.Authorization c) scheme token) /\
   exists msg,
     (msg = "missing Authorization header" \/ msg = "invalid Authorization format") /\
     firebase.FirebaseAuthMiddleware lower fs c =
       firebase.mkHandled (firebase.Abort (firebase.unauthorized msg)) c [] []).
Proof.
  unfold firebase.FirebaseAuthMiddleware, firebase.GetHeader.
  destruct (decide (firebase.Authorization c = EmptyString)) as [He|Hne].
  { right. split; [|eauto].
    intros scheme token [H _]. rewrite He in H. by destruct scheme. }
  destruct (strings.SplitN (firebase.Authorization c) " " 2) as [|p0 [|p1 [|? ?]]] eqn:Hs.
  1,2,4: right; (split; [|eauto]); intros scheme token (H & Hsp & _);
    assert (strings.SplitN (firebase.Authorization c) " " 2 = [scheme; token])
      as Hs' by (by apply SplitN_once); congruence.
  destruct (decide (strings.ToLower lower p0 = "bearer")) as [Hb|Hb].
  - left. exists p0, p1. split; [|reflexivity].
    apply SplitN_once in Hs as [? ?]. by split.
  - right. split; [|eauto]. intros scheme token (H & Hsp & Hl).
    assert (strings.SplitN (firebase.Authorization c) " " 2 = [scheme; token])
      as Hs' by (by apply SplitN_once). congruence.
Qed.

Lemma bearer_unique lower header scheme token scheme' token' :
  bearer lower header scheme token -> bearer lower header scheme' token' ->
  scheme' = scheme /\ token' = token.
Proof.
  intros (H & Hsp & _) (H' & Hsp' & _).
  assert (strings.SplitN header " " 2 = [scheme; token]) as Hs by (by apply SplitN_once).
  assert (strings.SplitN header " " 2 = [scheme'; token']) as Hs' by (by apply SplitN_once).
  rewrite Hs in Hs'. by inversion Hs'.
Qed.

(** X15. The middleware lets a request through, with [c.Next()], exactly
    when its Authorization header is a scheme without a space that
    lower-cases to [bearer], one space and a token, and [VerifyIDToken]
    returns no error for that token, which is all that follows the first
    space of the header. [GetFirebaseUser] then gives the next handlers
    what the verifier returned for it. *)
Theorem FirebaseAuthMiddleware_next {Token App Other : Type} (lower : string -> string)
    (fs : @firebase.FirebaseService Token App) (c : @firebase.Context Token Other)
    (tok : option Token) :
  firebase.ending (firebase.FirebaseAuthMiddleware lower fs c) = firebase.Next /\
  firebase.GetFirebaseUser (firebase.ctx (firebase.FirebaseAuthMiddleware lower fs c)) = tok
  <->
  exists scheme token VerifyIDToken,
    bearer lower (firebase.Authorization c) scheme token /\
    firebase.Auth fs = Some VerifyIDToken /\
    VerifyIDToken token = (tok, None).
Proof.
  destruct (middleware_cases lower fs c) as [(scheme & token & Hb & ->)|[Hnb (msg & _ & ->)]].
  - unfold firebase.VerifyToken. split.
    + destruct (firebase.Auth fs) as [verify|]; [|by intros [? _]].
      destruct (verify token) as [t [err|]] eqn:Hv; [by intros [? _]|].
      cbn. unfold firebase.GetFirebaseUser, firebase.Get. cbn.
      rewrite lookup_insert_eq. intros [_ <-]. eauto 6.
    + intros (scheme' & token' & verify & Hb' & -> & Hv).
      destruct (bearer_unique _ _ _ _ _ _ Hb Hb') as [-> ->]. rewrite Hv. cbn.
      unfold firebase.GetFirebaseUser, firebase.Get. cbn.
      by rewrite lookup_insert_eq.
  - split; [by intros [? _]|]. intros (scheme & token & _ & Hb & _). by apply Hnb in Hb.
Qed.


(** ** [pkg/firebase]: [NewFirebaseService] *)


(** ** [pkg/firebase_service]: the handler of [Auth] *)

Lemma is_string_dec v : is_string v \/ ~ is_string v.
Proof. destruct v; try (right; by intros [? ?]). left. by eexists. Qed.

Lemma has_required_spec required permissions : forall h,
  (Forall is_string permissions /\
   exists b, firebase_service.has_required required permissions h = Some b /\
             (b = true <-> h = true \/ firebase_service.VString required ∈ permissions)) \/
  (~ Forall is_string permissions /\
   firebase_service.has_required required permissions h = None).
Proof.
  induction permissions as [|v permissions IH]; intros h.
  - left. split; [constructor|]. exists h. split; [reflexivity|].
    split; [auto|]. intros [?|Hin]; [done|]. by apply elem_of_nil in Hin.
  - destruct (is_string_dec v) as [[s ->]|Hv].
    + cbn [firebase_service.has_required].
      destruct (IH (if decide (s = required) then true else h))
        as [(Hall & b & -> & Hb)|(Hall & ->)].
      * left. split; [constructor; [by eexists|done]|]. exists b. split; [reflexivity|].
        rewrite Hb, elem_of_cons. case_decide as Hs.
        { subst s. split; auto. }
        split; [intros [?|?]; auto|]. intros [?|[Heq|?]]; auto. inversion Heq. congruence.
      * right. split; [|reflexivity]. by intros [_ ?]%Forall_cons.
    + right. split; [by intros [? _]%Forall_cons|].
      destruct v; try reflexivity. destruct Hv. by eexists.
Qed.

Lemma has_all_required_snoc rest required permissions : forall h h',
  firebase_service.has_all_required (rest ++ [required]) permissions h =
  firebase_service.has_all_required [required] permissions h'.
Proof.
  induction rest as [|r rest IH]; intros h h'; [reflexivity|].
  cbn [app firebase_service.has_all_required].
  destruct (has_required_spec r permissions false) as [(_ & b & -> & _)|(Hall & ->)].
  - apply (IH b h').
  - by destruct (has_required_spec required permissions false)
      as [(? & _)|(_ & ->)].
Qed.

Lemma has_all_required_true requiredPermissions permissions :
  firebase_service.has_all_required requiredPermissions permissions true = Some true <->
  requiredPermissions = [] \/
  (Forall is_string permissions /\
   exists required,
     last requiredPermissions = Some required /\
     firebase_service.VString required ∈ permissions).
Proof.
  destruct requiredPermissions as [|r rest _] using rev_ind.
  { split; [auto|reflexivity]. }
  rewrite (has_all_required_snoc _ _ _ _ true), last_snoc.
  cbn [firebase_service.has_all_required].
  destruct (has_required_spec r permissions false) as [(Hall & b & -> & Hb)|(Hall & ->)].
  - split.
    + intros [= ->]. right. split; [done|]. exists r. split; [done|].
      destruct Hb as [Hb _]. by destruct Hb.
    + intros [He|(_ & r' & [= <-] & Hin)]; [by destruct rest|].
      f_equal. apply Hb. auto.
  - split; [done|]. intros [He|(? & _)]; [by destruct rest|done].
Qed.

Lemma is_bool_false b v :
  firebase_service.is_bool b v = false <-> v <> firebase_service.VBool b.
Proof.
  destruct v as [|b'| | | |]; cbn; try done.
  destruct b, b'; cbn; split; congruence.
Qed.

Section Authorize.

Context {Client : Type}.
Variable ext : @firebase_service.Externals Client.

Lemma authorize_Next_iff today requiredPermissions claims :
  firebase_service.authorize ext today requiredPermissions claims = firebase_service.Next <->
  admitted ext today requiredPermissions claims.
Proof.
  unfold firebase_service.authorize, admitted.
  rewrite <- !is_bool_false.
  destruct (firebase_service.is_bool true _); [by split; [|intros [? _]]|].
  destruct (firebase_service.is_bool false _); [by split; [|intros (_ & ? & _)]|].
  split.
  - intros H. split; [done|]. split; [done|].
    destruct (firebase_service.index claims "license") as [| | | |license|]; try done.
    destruct (firebase_service.index license "startDate") as [| |start| | |] eqn:Hsd;
      try done.
    destruct (firebase_service.time_Parse ext start) as [startDate|] eqn:Hstart; try done.
    destruct (firebase_service.index license "endDate") as [| |end_| | |] eqn:Hed;
      try done.
    destruct (firebase_service.time_Parse ext end_) as [endDate|] eqn:Hend; try done.
    case_bool_decide as Hs; [done|].
    destruct (bool_decide (endDate < today)%Z && negb (bool_decide (endDate = 0%Z))) eqn:He;
      [done|].
    destruct (firebase_service.index claims "permissions") as [| | |permissions| |]; try done.
    exists license, start, end_, startDate, endDate, permissions.
    do 5 (split; [done|]). split; [lia|]. split.
    { apply andb_false_iff in He as [He|He].
      - apply bool_decide_eq_false in He. lia.
      - apply negb_false_iff, bool_decide_eq_true in He. auto. }
    split; [done|]. apply has_all_required_true.
    by destruct (firebase_service.has_all_required requiredPermissions permissions true)
      as [[]|].
  - intros (_ & _ & license & start & end_ & startDate & endDate & permissions
            & -> & -> & -> & Hstart & Hend & Hs & He & -> & Hp).
    apply has_all_required_true in Hp. rewrite Hstart, Hend, Hp.
    rewrite bool_decide_eq_false_2 by lia.
    assert (bool_decide (endDate < today)%Z && negb (bool_decide (endDate = 0%Z)) = false)
      as ->; [|done].
    destruct He as [He| ->]; [by rewrite bool_decide_eq_false_2 by lia|].
    by rewrite andb_false_r.
Qed.

End Authorize.

(** *** Splitting at a separator of any length *)

Lemma genSplit_cons sep n skip cur s :
  exists x l, strings.genSplit sep n skip cur s = x :: l.
Proof.
  revert n skip cur. induction s as [|c s IH]; intros n skip cur; cbn [strings.genSplit].
  - eauto.
  - destruct skip as [|k]; [|apply IH].
    destruct n as [[|n]|]; [eauto| |]; destruct (strings.HasPrefix _ _); eauto.
Qed.

Lemma genSplit_skip sep n cur a t :
  strings.genSplit sep n (String.length a) cur (a +:+ t) = strings.genSplit sep n 0 cur t
  \/ t = EmptyString.
Proof.
  destruct t as [|d t]; [by right|left].
  induction a as [|c a IH]; [by rewrite sapp_nil_l|].
  rewrite sapp_cons. cbn [String.length strings.genSplit]. exact IH.
Qed.

Lemma genSplit_skip_all sep n cur a :
  strings.genSplit sep n (String.length a) cur a = [cur].
Proof. induction a as [|c a IH]; [reflexivity|exact IH]. Qed.

Lemma HasPrefix_app sep t : strings.HasPrefix (sep +:+ t) sep = true.
Proof.
  induction sep as [|c sep IH]; [by destruct t|].
  rewrite sapp_cons. cbn [strings.HasPrefix]. by rewrite bool_decide_eq_true_2, IH.
Qed.

Lemma occurs_empty c sep : occurs (String c sep) EmptyString = false.
Proof. reflexivity. Qed.

Lemma genSplit_no_occurrence c sep s : forall cur,
  occurs (String c sep) s = false ->
  strings.genSplit (String c sep) None 0 cur s = [cur +:+ s].
Proof.
  induction s as [|d s IH]; intros cur H.
  - cbn. by rewrite sapp_nil_r.
  - cbn [occurs] in H. apply orb_false_iff in H as [Hp Hs].
    cbn [strings.genSplit]. rewrite Hp, (IH _ Hs), sapp_assoc. reflexivity.
Qed.

Lemma genSplit_occurrence c sep s : forall cur,
  occurs (String c sep) s = true ->
  exists x y l, strings.genSplit (String c sep) None 0 cur s = x :: y :: l.
Proof.
  induction s as [|d s IH]; intros cur H; [done|].
  cbn [occurs] in H. cbn [strings.genSplit].
  destruct (strings.HasPrefix (String d s) (String c sep)).
  - destruct (genSplit_cons (String c sep) (option_map Nat.pred None)
                (String.length (String c sep) - 1) EmptyString s) as (y & l & ->).
    eauto.
  - apply IH. exact H.
Qed.

Lemma Split_prefix c sep t :
  occurs (String c sep) t = false ->
  strings.Split (String c sep +:+ t) (String c sep) = [EmptyString; t].
Proof.
  intros H. unfold strings.Split. rewrite sapp_cons. cbn [strings.genSplit].
  rewrite <- sapp_cons, HasPrefix_app. cbn [option_map String.length]. f_equal.
  replace (S (String.length sep) - 1) with (String.length sep) by lia.
  destruct (genSplit_skip (String c sep) None EmptyString sep t) as [-> | ->].
  - by rewrite genSplit_no_occurrence, sapp_nil_l.
  - rewrite sapp_nil_r. apply genSplit_skip_all.
Qed.

(** X18. Whom the handler of [Auth] lets through. For a request whose
    Authorization header is [Bearer ] followed by a token in which
    [Bearer ] does not occur again, the handler calls [c.Next()] exactly
    when the token parses with the key of AUTH_SECRET and its claims are
    admitted: the account is not marked disabled, the email is not
    marked unverified (a claim that is absent passes both), the license
    has begun and has not ended or has the zero time as its end, and the
    permissions are a list that, when permissions are required, is made
    of strings and holds the last required one. *)
Theorem Auth_admits {Client : Type} (ext : @firebase_service.Externals Client)
    (requiredPermissions : list string)
    (handler : Env -> Z -> firebase_service.Context -> firebase_service.Ending)
    (env : Env) (today : Z) (c : firebase_service.Context) (token : string) :
  firebase_service.Auth ext requiredPermissions = Some handler ->
  firebase_service.Authorization c = "Bearer " +:+ token ->
  occurs "Bearer " token = false ->
  handler env today c = firebase_service.Next <->
  exists claims,
    firebase_service.jwt_Parse ext token (Getenv env "AUTH_SECRET") = inl claims /\
    admitted ext today requiredPermissions claims.
Proof.
  unfold firebase_service.Auth. intros Hauth Hheader Htoken.
  destruct (firebase_service.NewKeyManagementClient ext) as [client|]; [|done].
  inversion Hauth as [Hh]. clear Hauth Hh.
  unfold firebase_service.tokenString. rewrite Hheader.
  rewrite decide_False by done. rewrite (Split_prefix "B"%char "earer ") by done.
  destruct (firebase_service.jwt_Parse ext token (Getenv env "AUTH_SECRET")) as [claims|err].
  - rewrite authorize_Next_iff. split; [eauto|]. by intros (claims' & [= <-] & ?).
  - split; [done|]. by intros (claims' & ? & _).
Qed.

Lemma Auth_admits_witness :
  exists handler,
    firebase_service.Auth test_auth_externals ["admin"; "write"] = Some handler /\
    handler ∅ 5%Z (firebase_service.mkContext "Bearer t1" None) = firebase_service.Next.
Proof.
  eexists. split; [reflexivity|].
  apply (proj2 (Auth_admits test_auth_externals ["admin"; "write"] _ ∅ 5%Z
                  (firebase_service.mkContext "Bearer t1" None) "t1"
                  eq_refl eq_refl eq_refl)).
  exists test_claims. split; [reflexivity|].
  split; [by vm_compute|]. split; [by vm_compute|].
  exists {[ "startDate" := firebase_service.VString "1";
            "endDate" := firebase_service.VString "0" ]},
    "1", "0", 1%Z, 0%Z,
    [firebase_service.VString "read"; firebase_service.VString "write"].
  split; [by vm_compute|]. split; [by vm_compute|]. split; [by vm_compute|].
  split; [reflexivity|]. split; [reflexivity|]. split; [lia|]. split; [by right|].
  split; [by vm_compute|]. right. split.
  - repeat constructor; by eexists.
  - exists "write". split; [reflexivity|]. right. left.
Defined.

(** X19. A request with an Authorization header in which [Bearer ] does
    not occur (another scheme, [bearer] in lower case, a bare token)
    makes the handler of [Auth] panic at [parts[1]]; no response is
    written. *)
Theorem Auth_panics_without_Bearer {Client : Type} (ext : @firebase_service.Externals Client)
    (requiredPermissions : list string)
    (handler : Env -> Z -> firebase_service.Context -> firebase_service.Ending)
    (env : Env) (today : Z) (c : firebase_service.Context) :
  firebase_service.Auth ext requiredPermissions = Some handler ->
  firebase_service.Authorization c <> EmptyString ->
  occurs "Bearer " (firebase_service.Authorization c) = false ->
  handler env today c = firebase_service.Panic.
Proof.
  unfold firebase_service.Auth. intros Hauth Hheader Hocc.
  destruct (firebase_service.NewKeyManagementClient ext) as [client|]; [|done].
  inversion Hauth as [Hh]. clear Hauth Hh.
  unfold firebase_service.tokenString. rewrite decide_False by done.
  unfold strings.Split. by rewrite (genSplit_no_occurrence "B"%char "earer ").
Qed.

Lemma Auth_panics_without_Bearer_witness :
  exists handler,
    firebase_service.Auth test_auth_externals [] = Some handler /\
    handler ∅ 5%Z (firebase_service.mkContext "bearer t1" None) = firebase_service.Panic.
Proof.
  eexists. split; [reflexivity|].
  apply (Auth_panics_without_Bearer test_auth_externals [] _ ∅ 5%Z
           (firebase_service.mkContext "bearer t1" None) eq_refl).
  - discriminate.
  - reflexivity.
Defined.

(** X20. Of the permissions that [Auth] is given only the last one
    counts: the handler for a list of required permissions ends every
    request the way the handler for the last of them alone does. *)
Theorem Auth_checks_last_permission_only {Client : Type}
    (ext : @firebase_service.Externals Client) (rest : list string) (required : string) :
  match firebase_service.Auth ext (rest ++ [required]), firebase_service.Auth ext [required] with
  | Some handler, Some handler' =>
      forall env today c, handler env today c = handler' env today c
  | None, None => True
  | _, _ => False
  end.
Proof.
  unfold firebase_service.Auth.
  destruct (firebase_service.NewKeyManagementClient ext) as [client|]; [|done].
  intros env today c.
  destruct (firebase_service.tokenString ext env c client) as [e|token]; [done|].
  destruct (firebase_service.jwt_Parse ext token (Getenv env "AUTH_SECRET")) as [claims|err];
    [|done].
  unfold firebase_service.authorize.
  destruct (firebase_service.is_bool true _); [done|].
  destruct (firebase_service.is_bool false _); [done|].
  destruct (firebase_service.index claims "license") as [| | | |license|]; try done.
  destruct (firebase_service.index license "startDate") as [| |start| | |]; try done.
  destruct (firebase_service.time_Parse ext start) as [startDate|]; [|done].
  destruct (firebase_service.index license "endDate") as [| |end_| | |]; try done.
  destruct (firebase_service.time_Parse ext end_) as [endDate|]; [|done].
  case_bool_decide; [done|].
  destruct (bool_decide (endDate < today)%Z && negb (bool_decide (endDate = 0%Z))); [done|].
  destruct (firebase_service.index claims "permissions") as [| | |permissions| |]; try done.
  by rewrite (has_all_required_snoc rest required permissions true true).
Qed.

(** ** [pkg/firebase_service]: [SetRoutes] *)

Lemma before_after d s :
  has_char d s = true -> s = before d s +:+ String d (after d s).
Proof.
  induction s as [|c s IH]; [done|]. cbn [has_char before after].
  case_bool_decide as Hc; case_decide; try done.
  - subst c. by rewrite sapp_nil_l.
  - cbn [orb]. intros Hs. by rewrite sapp_cons, <- IH.
Qed.

Lemma has_char_before d s : has_char d (before d s) = false.
Proof.
  induction s as [|c s IH]; [done|]. cbn [before]. case_decide as Hc; [done|].
  cbn [has_char]. by rewrite bool_decide_eq_false_2, IH.
Qed.

Lemma genSplit_head d s : forall cur,
  exists l, strings.genSplit (String d EmptyString) None 0 cur s = (cur +:+ before d s) :: l.
Proof.
  induction s as [|c s IH]; intros cur.
  - exists []. cbn. by rewrite sapp_nil_r.
  - cbn [strings.genSplit before]. rewrite HasPrefix_one.
    case_bool_decide as Hc; case_decide; try done.
    + rewrite sapp_nil_r. eauto.
    + destruct (IH (cur +:+ String c EmptyString)) as [l ->]. exists l.
      by rewrite sapp_assoc.
Qed.

Lemma Split_bar key :
  (has_char "|"%char key = false /\ strings.Split key "|" = [key]) \/
  (has_char "|"%char key = true /\
   exists l, strings.Split key "|" =
               before "|"%char key :: before "|"%char (after "|"%char key) :: l).
Proof.
  destruct (has_char "|"%char key) eqn:Hk.
  - right. split; [done|]. unfold strings.Split.
    assert (strings.genSplit "|" None 0 EmptyString key =
            strings.genSplit "|" None 0 EmptyString
              (before "|"%char key +:+ String "|"%char (after "|"%char key))) as ->
      by (by rewrite <- before_after).
    rewrite genSplit_cut by apply has_char_before. cbn [option_map]. rewrite sapp_nil_l.
    destruct (genSplit_head "|"%char (after "|"%char key) EmptyString) as [l ->].
    rewrite sapp_nil_l. eauto.
  - left. split; [done|]. unfold strings.Split. by rewrite genSplit_no_sep, sapp_nil_l.
Qed.

Lemma protect_spec auth order : forall i routes,
  (Forall (fun entry => has_char "|"%char entry.1 = true) order ->
   firebase_service.protect auth i order routes =
     Some (routes ++ imap (fun j => protected_route auth (i + j)) order)) /\
  (Exists (fun entry => has_char "|"%char entry.1 = false) order ->
   firebase_service.protect auth i order routes = None).
Proof.
  induction order as [|[key h] order IH]; intros i routes.
  - split; [|by intros ?%Exists_nil]. intros _. cbn. by rewrite app_nil_r.
  - cbn [firebase_service.protect].
    destruct (Split_bar key) as [[Hk ->]|(Hk & l & ->)].
    + split; [|done]. intros [Hk' _]%Forall_cons. cbn in Hk'. congruence.
    + destruct (IH (S i) (routes ++ [mkHandler (before "|"%char key)
                                       (before "|"%char (after "|"%char key))
                                       [auth i; h]])) as [IH1 IH2].
      split.
      * intros [_ Hall]%Forall_cons. rewrite (IH1 Hall), <- app_assoc. cbn [app imap].
        do 3 f_equal.
        { unfold protected_route. cbn. by rewrite Nat.add_0_r. }
        apply imap_ext. intros j entry _. cbn. f_equal. lia.
      * intros [Hk'|Hex]%Exists_cons; [cbn in Hk'; congruence|]. by apply IH2.
Qed.

(** X21. [SetRoutes] on a map of protected routes, however the map
    hands out its entries. The call panics exactly when some key holds
    no bar. Otherwise the handlers of the service become the swagger
    route followed by one route for each entry, in the order of the
    iteration: its type is what the key has before its first bar, its
    path what stands between the first bar and the second (what follows
    a second bar is dropped), its handlers the one of [Auth] and then
    the one of the entry; the port of the service is kept. *)
Theorem SetRoutes_routes (auth : nat -> HandlerFunc) (protected : gmap string HandlerFunc)
    (order : list (string * HandlerFunc)) (common : Service) :
  order ≡ₚ map_to_list protected ->
  (firebase_service.SetRoutes auth order common = None <->
   exists key handler, protected !! key = Some handler /\ has_char "|"%char key = false) /\
  (forall common',
     firebase_service.SetRoutes auth order common = Some common' ->
     Port common' = Port common /\
     HTTPHandlers common' =
       firebase_service.swagger :: imap (protected_route auth) order).
Proof.
  intros Hperm. unfold firebase_service.SetRoutes.
  destruct (protect_spec auth order 0 [firebase_service.swagger]) as [Hall Hex].
  destruct (decide (Forall (fun entry : string * HandlerFunc =>
                              has_char "|"%char entry.1 = true) order)) as [Hf|Hf].
  - rewrite (Hall Hf). split.
    + split; [done|]. intros (key & handler & Hin & Hk).
      apply elem_of_map_to_list in Hin. rewrite <- Hperm in Hin.
      rewrite Forall_forall in Hf. apply Hf in Hin. cbn in Hin. congruence.
    + by intros common' [= <-].
  - apply not_Forall_Exists in Hf; [|intros entry; apply _].
    assert (Exists (fun entry : string * HandlerFunc =>
                      has_char "|"%char entry.1 = false) order) as Hex'.
    { eapply Exists_impl; [exact Hf|]. intros entry H. by apply not_true_is_false. }
    rewrite (Hex Hex'). split; [|done]. split; [|done]. intros _.
    apply Exists_exists in Hex' as ([key handler] & Hin & Hk).
    exists key, handler. split; [|exact Hk].
    apply elem_of_map_to_list. by rewrite <- Hperm.
Qed.

Lemma SetRoutes_routes_witness :
  [("GET|/users|all", "listUsers")] ≡ₚ map_to_list {[ "GET|/users|all" := "listUsers" ]} /\
  forall common',
    firebase_service.SetRoutes (fun _ => "Auth") [("GET|/users|all", "listUsers")]
      (mkService "8080" []) = Some common' ->
    HTTPHandlers common' =
      [firebase_service.swagger; mkHandler "GET" "/users" ["Auth"; "listUsers"]].
Proof.
  assert ([("GET|/users|all", "listUsers")] ≡ₚ
          map_to_list ({[ "GET|/users|all" := "listUsers" ]} : gmap string HandlerFunc)) as Hperm.
  { by rewrite map_to_list_singleton. }
  split; [exact Hperm|]. intros common' H.
  exact (proj2 (proj2 (SetRoutes_routes (fun _ => "Auth") _ _ (mkService "8080" []) Hperm)
                  common' H)).
Defined.



